(** * bananas_server.index.github: the GitHub-backed index

    A shallow embedding of [src/bananas_server/index/github.py] and the
    properties of its refresh protocol: the mirror directory is modelled as
    a tree of files and directories, the pieces of Python that act on it
    ([os.walk], [os.rmdir], [os.unlink]) as functions on that tree, and the
    GitPython calls as an interface ([Toolchain]) whose operations the code
    sequences. *)

From Stdlib Require Import Ascii Strings.Byte.
From stdpp Require Import base option list strings gmap pretty.

Set Default Proof Using "Type".

(** ** Strings and paths *)

(** [str.startswith(prefix)]. *)
Fixpoint startswith (s pre : string) {struct pre} : bool :=
  match pre with
  | EmptyString => true
  | String c pre' =>
      match s with
      | EmptyString => false
      | String d s' => if Ascii.eqb c d then startswith s' pre' else false
      end
  end.

(** [str.endswith("/")], the only suffix test [os.path.join] makes. *)
Fixpoint ends_with_sep (s : string) : bool :=
  match s with
  | EmptyString => false
  | String c EmptyString => Ascii.eqb c "/"
  | String _ s' => ends_with_sep s'
  end.

(** [os.path.join(a, b)] (posixpath) for two components: an absolute [b]
    replaces [a]; otherwise a separator is inserted unless [a] is empty or
    already ends with one. *)
Definition os_path_join (a b : string) : string :=
  if startswith b "/" then b
  else if bool_decide (a = "") || ends_with_sep a then a +:+ b
  else a +:+ "/" +:+ b.

(** ** The directory tree *)

(** What [os.scandir] can find below the mirror folder: regular files (with
    their content) and directories (with their entries, in the order in which
    [scandir] lists them). *)
#[local] Unset Elimination Schemes.
Inductive node : Type :=
  | File (data : string)
  | Dir (entries : list (string * node)).
#[local] Set Elimination Schemes.

Abbreviation listing := (list (string * node)).

(** Induction over trees: a directory satisfies [P] when all its entries do. *)
Section node_induction.
Variable P : node → Prop.
Hypothesis P_file : ∀ data, P (File data).
Hypothesis P_dir : ∀ es, Forall (λ e, P e.2) es → P (Dir es).

Fixpoint node_ind (n : node) : P n :=
  match n with
  | File data => P_file data
  | Dir es =>
      P_dir es
        ((fix go (l : listing) : Forall (λ e, P e.2) l :=
            match l with
            | [] => List.Forall_nil _
            | e :: l' => List.Forall_cons _ e l' (node_ind e.2) (go l')
            end) es)
  end.
End node_induction.

Definition is_dir (n : node) : bool :=
  match n with Dir _ => true | File _ => false end.

(** The two lists [os.walk] builds from one [scandir] of a directory. *)
Definition dirs (es : listing) : list string :=
  (filter (λ e, is_dir e.2 = true) es).*1.

Definition nondirs (es : listing) : list string :=
  (filter (λ e, is_dir e.2 = false) es).*1.

(** Python's truth value of a list. *)
Definition truthy {A} (l : list A) : bool :=
  match l with [] => false | _ => true end.

(** Number of directories in a tree, the directory itself included. *)
Fixpoint count_dirs (n : node) : nat :=
  match n with
  | File _ => 0
  | Dir es =>
      S ((fix go (l : listing) : nat :=
            match l with
            | [] => 0
            | e :: l' => count_dirs e.2 + go l'
            end) es)
  end.

Definition count_dirs_in (es : listing) : nat :=
  foldr (λ e k, count_dirs e.2 + k) 0 es.

(** The mirror folder on disk: [None] when the path does not exist. *)
Abbreviation disk := (option listing).

(** ** The walk of [_remove_empty_folders]

    [os.walk(parent_folder, topdown=False)] scans a directory, walks into
    each subdirectory found by that scan, and only then yields
    [(root, folders, files)] for the directory itself, with the lists of the
    scan made before the descent. The loop body runs at each yield. Its only
    effect is [os.rmdir(root)], which takes [root] out of the directory above
    it, so one pass is a function from a directory to what is left of it.

    The pass returns the flag [removed], the arguments of the [os.rmdir]
    calls in the order in which they were made, and the node that is left
    ([None] when the directory itself went away). *)
Record pass_result (A : Type) : Type := PassResult {
  removed : bool;
  rmdirs : list string;
  left_over : A;
}.
Arguments PassResult {A} _ _ _.
Arguments removed {A} _.
Arguments rmdirs {A} _.
Arguments left_over {A} _.

Fixpoint walk_remove (root : string) (n : node) : pass_result (option node) :=
  match n with
  | File _ => PassResult false [] (Some n)
  | Dir es =>
      (* for new_path in walk_dirs: yield from walk(new_path, ...) *)
      let below :=
        (fix go (l : listing) : pass_result listing :=
           match l with
           | [] => PassResult false [] []
           | (name, c) :: l' =>
               let r1 := walk_remove (os_path_join root name) c in
               let r2 := go l' in
               PassResult (removed r1 || removed r2)
                          (rmdirs r1 ++ rmdirs r2)
                          (match left_over r1 with
                           | Some c' => (name, c') :: left_over r2
                           | None => left_over r2
                           end)
           end) es in
      (* yield top, dirs, nondirs: the body of the for loop *)
      let folders := dirs es in
      let files := nondirs es in
      if startswith root ".git" then
        (* continue *)
        PassResult (removed below) (rmdirs below) (Some (Dir (left_over below)))
      else if negb (truthy folders) && negb (truthy files) then
        (* os.rmdir(root); removed = True *)
        PassResult true (rmdirs below ++ [root]) None
      else
        PassResult (removed below) (rmdirs below) (Some (Dir (left_over below)))
  end.

(** The descent into the entries of one directory, as a function of its own. *)
Definition walk_below (root : string) : listing → pass_result listing :=
  fix go (l : listing) : pass_result listing :=
    match l with
    | [] => PassResult false [] []
    | (name, c) :: l' =>
        let r1 := walk_remove (os_path_join root name) c in
        let r2 := go l' in
        PassResult (removed r1 || removed r2)
                   (rmdirs r1 ++ rmdirs r2)
                   (match left_over r1 with
                    | Some c' => (name, c') :: left_over r2
                    | None => left_over r2
                    end)
    end.


(** One pass of the loop of [_remove_empty_folders] over the mirror folder.
    [os.walk] yields nothing for a path that [scandir] cannot open: one that
    does not exist, or the empty path. *)
Definition prune_pass (parent_folder : string) (d : disk) : pass_result disk :=
  match d with
  | None => PassResult false [] None
  | Some es =>
      if bool_decide (parent_folder = "") then
        (* scandir("") fails, and os.walk ignores the error *)
        PassResult false [] d
      else
        let r := walk_remove parent_folder (Dir es) in
        PassResult (removed r) (rmdirs r)
                   (match left_over r with
                    | Some (Dir es') => Some es'
                    | _ => None
                    end)
  end.

(** The directory after [k] passes. *)
Fixpoint after_passes (k : nat) (folder : string) (d : disk) : disk :=
  match k with
  | 0 => d
  | S k' => after_passes k' folder (left_over (prune_pass folder d))
  end.

Definition count_dirs_disk (d : disk) : nat :=
  match d with None => 0 | Some es => count_dirs (Dir es) end.

Definition count_dirs_opt (o : option node) : nat :=
  match o with None => 0 | Some n => count_dirs n end.

(** What a pass does to a tree, given what it reports. *)
Record pass_ok (before : nat) (same : Prop) (r_removed : bool)
    (r_rmdirs : list string) (after : nat) : Prop := PassOk {
  pass_count : after + length r_rmdirs = before;
  pass_flag : r_removed = truthy r_rmdirs;
  pass_same : r_removed = false → same;
}.

(** ** Paths below the mirror folder

    A path relative to the folder is kept as the list of its components;
    [path_str] writes it the way git prints it. A real directory lists every
    name once; the definitions below do not rely on it and act on every
    entry that carries the name. *)
Abbreviation path := (list string).

Fixpoint path_str (p : path) : string :=
  match p with
  | [] => ""
  | [name] => name
  | name :: p' => name +:+ "/" +:+ path_str p'
  end.

Definition is_file_named (name : string) (e : string * node) : bool :=
  bool_decide (e.1 = name) && negb (is_dir e.2).

(** Is there a regular file at [p]? *)
Fixpoint has_file (p : path) (es : listing) : bool :=
  match p with
  | [] => false
  | [name] => existsb (is_file_named name) es
  | name :: p' =>
      existsb (λ e, bool_decide (e.1 = name) &&
                    match e.2 with Dir sub => has_file p' sub | File _ => false end) es
  end.

(** The file at [p] with content [data]. *)
Fixpoint file_in (p : path) (data : string) (es : listing) : Prop :=
  match p with
  | [] => False
  | [name] => (name, File data) ∈ es
  | name :: p' => ∃ sub, (name, Dir sub) ∈ es ∧ file_in p' data sub
  end.

(** The tree without the file at [p]. *)
Fixpoint remove_file (p : path) (es : listing) : listing :=
  match p with
  | [] => es
  | [name] => filter (λ e, is_file_named name e = false) es
  | name :: p' =>
      (λ e, match e.2 with
            | Dir sub => if bool_decide (e.1 = name)
                         then (e.1, Dir (remove_file p' sub)) else e
            | File _ => e
            end) <$> es
  end.

(** The version-control metadata directory and the working tree next to it. *)
Definition git_dir_name : string := ".git".

Definition working_tree (d : disk) : listing :=
  match d with
  | None => []
  | Some es => filter (λ e, e.1 ≠ git_dir_name) es
  end.

(** A directory without entries somewhere in the tree. *)
Fixpoint has_empty_dir (n : node) : bool :=
  match n with
  | File _ => false
  | Dir es =>
      match es with
      | [] => true
      | _ => (fix go (l : listing) : bool :=
                match l with
                | [] => false
                | e :: l' => has_empty_dir e.2 || go l'
                end) es
      end
  end.

Definition has_empty_dir_in (es : listing) : bool :=
  existsb (λ e, has_empty_dir e.2) es.

(** Entries are names, not paths: none starts with a separator. *)
Fixpoint plain_names (n : node) : bool :=
  match n with
  | File _ => true
  | Dir es =>
      (fix go (l : listing) : bool :=
         match l with
         | [] => true
         | e :: l' => negb (startswith e.1 "/") && plain_names e.2 && go l'
         end) es
  end.

(** A working tree is settled for a folder when a pass finds nothing to
    remove in it. *)
Definition settled (folder : string) (ws : listing) : Prop :=
  folder = "" ∨ removed (walk_below folder ws) = false.

(** Two nodes of the same kind with the same files. *)
Definition same_files (n n' : node) : Prop :=
  match n, n' with
  | File d, File d' => d = d'
  | Dir es, Dir es' => ∀ p data, file_in p data es' ↔ file_in p data es
  | _, _ => False
  end.


(** ** Exceptions, module state and the world *)

(** The exception classes the module names in its handlers, and any other. *)
Inductive exn : Type :=
  | BadName
  | NoSuchPathError
  | InvalidGitRepositoryError
  | OtherError (class_name : string).

Global Instance exn_eq_dec : EqDecision exn.
Proof. solve_decision. Defined.

Global Instance byte_eq_dec : EqDecision byte := Byte.byte_eq_dec.

(** The module-level variables [_github_branch], [_github_private_key] and
    [_github_url]; all three start as [None]. *)
Record globals : Type := Globals {
  _github_branch : option string;
  _github_private_key : option (list byte);
  _github_url : option string;
}.

Definition initial_globals : globals := Globals None None None.

(** A committed tree. *)
Abbreviation commit := listing.

(** What GitPython knows about the repository in the folder: the configured
    remotes with their URLs, the remote-tracking references of origin, the
    local branches, the branch [HEAD] points to and the tree recorded in the
    index. *)
Record repo : Type := Repo_ {
  remotes : gmap string string;
  origin_refs : gmap string commit;
  heads : gmap string commit;
  HEAD : option string;
  index : commit;
}.

Definition fresh_repo : repo := Repo_ ∅ ∅ ∅ None [].

(** Calls that leave the process, in the order in which they were made. *)
Inductive event : Type :=
  | EvTempFile (name : string) (content : list byte)
  | EvRepoOpen (folder : string)
  | EvRepoInit (folder : string)
  | EvCreateRemote (name url : string)
  | EvSetUrl (name url : string)
  | EvFetch (url : string) (GIT_SSH_COMMAND : option string)
  | EvCheckout (branch : string)
  | EvUnlink (file : string)
  | EvRmdir (folder : string)
  | EvBaseReload.

Global Instance event_eq_dec : EqDecision event.
Proof. solve_decision. Defined.

Record world : Type := World {
  module_globals : globals;
  (** the directory at the index folder *)
  folder_disk : disk;
  (** the repository in that directory, if it is one *)
  repository : option repo;
  (** the environment GitPython runs git in: its [GIT_SSH_COMMAND] entry *)
  git_environment : option string;
  (** named temporary files and their content *)
  tempfiles : gmap string (list byte);
  (** number of fetches attempted so far *)
  fetch_count : nat;
  trace : list event;
}.

Definition set_globals (g : globals) (w : world) : world :=
  World g (folder_disk w) (repository w) (git_environment w) (tempfiles w)
        (fetch_count w) (trace w).
Definition set_disk (d : disk) (w : world) : world :=
  World (module_globals w) d (repository w) (git_environment w) (tempfiles w)
        (fetch_count w) (trace w).
Definition set_repository (r : option repo) (w : world) : world :=
  World (module_globals w) (folder_disk w) r (git_environment w) (tempfiles w)
        (fetch_count w) (trace w).
Definition set_environment (v : option string) (w : world) : world :=
  World (module_globals w) (folder_disk w) (repository w) v (tempfiles w)
        (fetch_count w) (trace w).
Definition set_tempfiles (t : gmap string (list byte)) (w : world) : world :=
  World (module_globals w) (folder_disk w) (repository w) (git_environment w) t
        (fetch_count w) (trace w).
Definition count_fetch (w : world) : world :=
  World (module_globals w) (folder_disk w) (repository w) (git_environment w)
        (tempfiles w) (S (fetch_count w)) (trace w).
Definition log (ev : event) (w : world) : world :=
  World (module_globals w) (folder_disk w) (repository w) (git_environment w)
        (tempfiles w) (fetch_count w) (trace w ++ [ev]).
Definition log_all (evs : list event) (w : world) : world :=
  World (module_globals w) (folder_disk w) (repository w) (git_environment w)
        (tempfiles w) (fetch_count w) (trace w ++ evs).

(** ** Computations: state and exceptions

    A call either returns a value, or raises; in both cases the world it
    leaves behind is part of the result. [Unfinished] stands for a loop that
    is still running when its bound is reached. *)
Inductive outcome (A : Type) : Type :=
  | Return (a : A) (w : world)
  | Raise (e : exn) (w : world)
  | Unfinished.
Arguments Return {A} _ _.
Arguments Raise {A} _ _.
Arguments Unfinished {A}.

Definition M (A : Type) : Type := world → outcome A.

(** The world a call leaves behind, when it ends. *)
Definition outcome_world {A} (o : outcome A) : option world :=
  match o with
  | Return _ w => Some w
  | Raise _ w => Some w
  | Unfinished => None
  end.

(** The repository after [ref.checkout(force=True, B=b)] of the tree [c]. *)
Definition checked_out (b : string) (c : commit) (r : repo) : repo :=
  Repo_ (remotes r) (origin_refs r) (<[b:=c]> (heads r)) (Some b) c.

(** The repository after a fetch that found the references [refs]. *)
Definition fetched (refs : gmap string commit) (r : repo) : repo :=
  Repo_ (remotes r) refs (heads r) (HEAD r) (index r).

(** The world after one fetch attempt from [url] was started. *)
Definition attempt (url : string) (w : world) : world :=
  log (EvFetch url (git_environment w)) (count_fetch w).

(** Fetches attempted between two worlds. *)
Definition new_fetches (w w' : world) : nat := fetch_count w' - fetch_count w.

(** From [w] to [w'] the module state and the fetch counter and environment
    stay as they are, and the calls made are all of the kind [P]. *)
Record only_calls (P : event → Prop) (w w' : world) : Prop := OnlyCalls {
  calls_globals : module_globals w' = module_globals w;
  calls_env : git_environment w' = git_environment w;
  calls_count : fetch_count w' = fetch_count w;
  calls_tempfiles : tempfiles w' = tempfiles w;
  calls_trace : ∃ evs, trace w' = trace w ++ evs ∧ Forall P evs;
}.

Definition refresh_call (ssh : option string) (branch : option string)
    (ev : event) : Prop :=
  match ev with
  | EvFetch _ env => env = ssh
  | EvCheckout b => branch = Some b
  | EvUnlink _ | EvRmdir _ => True
  | _ => False
  end.

Definition local_call (branch : option string) (ev : event) : Prop :=
  match ev with
  | EvCheckout b => branch = Some b
  | EvUnlink _ | EvRmdir _ => True
  | _ => False
  end.

Definition ret {A} (a : A) : M A := λ w, Return a w.
Definition raise {A} (e : exn) : M A := λ w, Raise e w.
Definition bind {A B} (c : M A) (k : A → M B) : M B := λ w,
  match c w with
  | Return a w' => k a w'
  | Raise e w' => Raise e w'
  | Unfinished => Unfinished
  end.

Notation "'let*' x ':=' c 'in' k" := (bind c (λ x, k))
  (at level 10, x name, c at level 100, k at level 200).
Notation "'let*' ' p ':=' c 'in' k" := (bind c (λ x, match x with p => k end))
  (at level 10, p pattern, c at level 100, k at level 200).

(** [try: c  except ...: h]: the handler sees the exception and either
    handles it or raises it again. *)
Definition try_except {A} (c : M A) (h : exn → M A) : M A := λ w,
  match c w with
  | Return a w' => Return a w'
  | Raise e w' => h e w'
  | Unfinished => Unfinished
  end.

(** [try: c  finally: f]. *)
Definition try_finally {A} (c : M A) (f : world → world) : M A := λ w,
  match c w with
  | Return a w' => Return a (f w')
  | Raise e w' => Raise e (f w')
  | Unfinished => Unfinished
  end.

(** [for x in l: body x]. *)
Fixpoint for_each {A} (l : list A) (body : A → M unit) : M unit :=
  match l with
  | [] => ret tt
  | x :: l' => let* _ := body x in for_each l' body
  end.

Definition get_world : M world := λ w, Return w w.
Definition modify (f : world → world) : M unit := λ w, Return tt (f w).
Definition lift_result {A} (r : exn + A) : M A :=
  match r with inl e => raise e | inr a => ret a end.

(** Unfolding the operations of the monad in a goal. *)
Ltac run :=
  repeat first
    [ progress cbn [bind ret raise try_except try_finally modify
                    get_world lift_result] in *
    | progress unfold bind, ret, raise, try_except, try_finally,
                      modify, get_world, lift_result in * ].

(** ** What the module gets from outside

    The functions of GitPython, [base64] and [tempfile] the module calls,
    each as a function of what it looks at. *)
Class Toolchain : Type := {
  (** [base64.b64decode] *)
  b64decode : string → exn + list byte;
  (** [tempfile.NamedTemporaryFile().name], given the files made before *)
  tempfile_name : gmap string (list byte) → string;
  (** [git.Repo.init(folder)]: the directory [git init] leaves, from a
      directory that may not exist yet *)
  git_init : disk → exn + listing;
  (** [origin.fetch()]: the outcome of the fetch number [n] from a URL under
      a [GIT_SSH_COMMAND]; on success, the remote-tracking references *)
  git_fetch : nat → string → option string → exn + gmap string commit;
  (** [ref.checkout(force=True, B=branch)]: what a forced checkout of a
      committed tree makes of the directory of a repository *)
  git_checkout : commit → repo → disk → exn + disk;
  (** [repo.untracked_files], from the index and the directory *)
  git_untracked : commit → disk → list path;
}.

(** The base class [LocalIndex] of [bananas_server.index.local]: the folder
    its constructor stores in [self._folder] and its [reload]. *)
Class LocalIndex (application result : Type) : Type := {
  local_folder : string;
  local_reload : application → M result;
}.

(** The attributes [Index.__init__] sets; [self._git] is the repository of
    the world. *)
Record Index : Type := Index_ {
  _folder : string;
  _github_private_key_file : option string;
  _ssh_command : option string;
}.

Definition is_BadName (e : exn) : bool :=
  match e with BadName => true | _ => false end.

Definition no_repository {A} : M A := raise (OtherError "AttributeError").

(** ** The calls the module makes *)

Section github.
Context {T : Toolchain} {application result : Type}.
Context {L : LocalIndex application result}.

(** [tempfile.NamedTemporaryFile()] *)
Definition NamedTemporaryFile : M string := λ w,
  let name := tempfile_name (tempfiles w) in
  Return name (set_tempfiles (<[name:=[]]> (tempfiles w)) w).

(** [file.write(data); file.flush()] *)
Definition tempfile_write (name : string) (data : list byte) : M unit :=
  modify (λ w, log (EvTempFile name data)
                 (set_tempfiles (alter (λ old, old ++ data) name (tempfiles w)) w)).

(** [git.Repo(folder)] *)
Definition Repo (folder : string) : M unit := λ w,
  let w' := log (EvRepoOpen folder) w in
  match folder_disk w with
  | None => Raise NoSuchPathError w'
  | Some _ =>
      match repository w with
      | None => Raise InvalidGitRepositoryError w'
      | Some _ => Return tt w'
      end
  end.

(** [git.Repo.init(folder)] *)
Definition Repo_init (folder : string) : M unit := λ w,
  let w' := log (EvRepoInit folder) w in
  match git_init (folder_disk w) with
  | inl e => Raise e w'
  | inr es =>
      Return tt (set_repository (Some (default fresh_repo (repository w)))
                   (set_disk (Some es) w'))
  end.

(** [self._git], once the constructor has set it *)
Definition the_repo : M repo := λ w,
  match repository w with
  | Some r => Return r w
  | None => no_repository w
  end.

(** ["origin" in self._git.remotes] *)
Definition remotes_contains (name : string) : M bool :=
  let* r := the_repo in
  ret (bool_decide (is_Some (remotes r !! name))).

(** [self._git.create_remote(name, url)] *)
Definition create_remote (name : string) (url : option string) : M unit :=
  let* r := the_repo in
  match url with
  | None => raise (OtherError "TypeError")
  | Some u =>
      if bool_decide (is_Some (remotes r !! name)) then
        raise (OtherError "GitCommandError")
      else
        modify (λ w, log (EvCreateRemote name u)
          (set_repository
             (Some (Repo_ (<[name:=u]> (remotes r)) (origin_refs r) (heads r)
                          (HEAD r) (index r))) w))
  end.

(** [self._git.remotes.origin]: the handle is the name of the remote *)
Definition remotes_origin : M string :=
  let* r := the_repo in
  match remotes r !! "origin" with
  | Some _ => ret "origin"
  | None => raise (OtherError "AttributeError")
  end.

(** [origin.url] *)
Definition remote_url (origin : string) : M string :=
  let* r := the_repo in
  match remotes r !! origin with
  | Some u => ret u
  | None => raise (OtherError "GitCommandError")
  end.

(** [origin.set_url(url)] *)
Definition set_url (origin : string) (url : option string) : M unit :=
  let* r := the_repo in
  match url with
  | None => raise (OtherError "TypeError")
  | Some u =>
      if bool_decide (is_Some (remotes r !! origin)) then
        modify (λ w, log (EvSetUrl origin u)
          (set_repository
             (Some (Repo_ (<[origin:=u]> (remotes r)) (origin_refs r) (heads r)
                          (HEAD r) (index r))) w))
      else raise (OtherError "GitCommandError")
  end.

(** [with self._git.git.custom_environment(GIT_SSH_COMMAND=value): body].
    GitPython sets the entry, or deletes it when the value is [None], and
    puts the old state back when the block is left, also by an exception. *)
Definition custom_environment {A} (GIT_SSH_COMMAND : option string)
    (body : M A) : M A := λ w,
  let old_env := git_environment w in
  try_finally body (set_environment old_env)
    (set_environment GIT_SSH_COMMAND w).

(** [origin.fetch()] *)
Definition origin_fetch (origin : string) : M unit :=
  let* r := the_repo in
  let* url := remote_url origin in
  λ w,
    let w' := attempt url w in
    match git_fetch (fetch_count w) url (git_environment w) with
    | inl e => Raise e w'
    | inr refs => Return tt (set_repository (Some (fetched refs r)) w')
    end.

(** [origin.refs[branch]] *)
Definition origin_refs_getitem (branch : option string) : M commit :=
  let* r := the_repo in
  match branch with
  | None => raise (OtherError "IndexError")
  | Some b =>
      match origin_refs r !! b with
      | Some c => ret c
      | None => raise (OtherError "IndexError")
      end
  end.

(** [ref.checkout(force=True, B=branch)] *)
Definition ref_checkout (ref : commit) (branch : option string) : M unit :=
  let* r := the_repo in
  match branch with
  | None => raise (OtherError "TypeError")
  | Some b => λ w,
      let w' := log (EvCheckout b) w in
      match git_checkout ref r (folder_disk w) with
      | inl e => Raise e w'
      | inr d =>
          Return tt (set_disk d (set_repository (Some (checked_out b ref r)) w'))
      end
  end.

(** [self._git.untracked_files] *)
Definition untracked_files : M (list path) :=
  let* r := the_repo in
  let* w := get_world in
  ret (git_untracked (index r) (folder_disk w)).

(** [os.unlink(f"{folder}/{file_name}")]. With the empty folder the path
    starts at the root of the file system and names nothing below the
    folder. *)
Definition os_unlink (folder : string) (file_name : path) : M unit := λ w,
  let w' := log (EvUnlink (folder +:+ "/" +:+ path_str file_name)) w in
  match folder_disk w with
  | Some es =>
      if bool_decide (folder = "") then
        Raise (OtherError "FileNotFoundError") w'
      else if has_file file_name es then
        Return tt (set_disk (Some (remove_file file_name es)) w')
      else Raise (OtherError "FileNotFoundError") w'
  | None => Raise (OtherError "FileNotFoundError") w'
  end.

(** [while cond: pass], for at most [fuel] evaluations of the condition. *)
Fixpoint while_pass (fuel : nat) (cond : M bool) : M unit :=
  match fuel with
  | 0 => λ _, Unfinished
  | S fuel' =>
      let* again := cond in
      if again then while_pass fuel' cond else ret tt
  end.

(** ** The module *)

(** [Index.__init__] *)
Definition Index__init__ : M Index :=
  (* super().__init__() *)
  let folder := local_folder in
  let* w := get_world in
  let* '(key_file, ssh_command) :=
    match _github_private_key (module_globals w) with
    | Some key =>
        if truthy key then
          let* name := NamedTemporaryFile in
          let* _ := tempfile_write name key in
          ret (Some name, Some ("ssh -i " +:+ name))
        else ret (None, None)
    | None => ret (None, None)
    end in
  let* _ :=
    try_except (Repo folder)
      (λ e, match e with
            | NoSuchPathError => Repo_init folder
            | InvalidGitRepositoryError => Repo_init folder
            | _ => raise e
            end) in
  (* Make sure the origin is set correctly *)
  let* known := remotes_contains "origin" in
  let* _ :=
    if negb known then create_remote "origin" (_github_url (module_globals w))
    else ret tt in
  let* origin := remotes_origin in
  let* url := remote_url origin in
  let* _ :=
    if bool_decide (Some url ≠ _github_url (module_globals w)) then
      set_url origin (_github_url (module_globals w))
    else ret tt in
  ret (Index_ folder key_file ssh_command).

(** The three parts of [Index.__init__], to speak about them one at a time:
    the private key, the repository, the remote. *)
Definition key_stage (g : globals) : M (option string * option string) :=
  match _github_private_key g with
  | Some key =>
      if truthy key then
        let* name := NamedTemporaryFile in
        let* _ := tempfile_write name key in
        ret (Some name, Some ("ssh -i " +:+ name))
      else ret (None, None)
  | None => ret (None, None)
  end.

Definition open_stage (folder : string) : M unit :=
  try_except (Repo folder)
    (λ e, match e with
          | NoSuchPathError => Repo_init folder
          | InvalidGitRepositoryError => Repo_init folder
          | _ => raise e
          end).

Definition origin_stage (g : globals) : M unit :=
  let* known := remotes_contains "origin" in
  let* _ :=
    if negb known then create_remote "origin" (_github_url g) else ret tt in
  let* origin := remotes_origin in
  let* url := remote_url origin in
  if bool_decide (Some url ≠ _github_url g) then
    set_url origin (_github_url g)
  else ret tt.

(** The repository with origin at [url]. *)
Definition with_origin (url : string) (r : repo) : repo :=
  Repo_ (<["origin":=url]> (remotes r)) (origin_refs r) (heads r) (HEAD r)
        (index r).

(** The SSH command for a key, given the name of the file that holds it. *)
Definition ssh_command_for (key : option (list byte)) (name : string)
  : option string :=
  match key with
  | Some key => if truthy key then Some ("ssh -i " +:+ name) else None
  | None => None
  end.

(** The file for a key that is in use. *)
Definition key_file_for (key : option (list byte)) (name : string)
  : option string :=
  match key with
  | Some key => if truthy key then Some name else None
  | None => None
  end.

(** The calls each part makes. *)
Definition key_events (key : option (list byte)) (name : string)
  : list event :=
  match key with
  | Some key => if truthy key then [EvTempFile name key] else []
  | None => []
  end.

Definition open_events (folder : string) (w : world) : list event :=
  match folder_disk w, repository w with
  | Some _, Some _ => [EvRepoOpen folder]
  | _, _ => [EvRepoOpen folder; EvRepoInit folder]
  end.

Definition origin_events (url : string) (r : repo) : list event :=
  match remotes r !! "origin" with
  | None => [EvCreateRemote "origin" url]
  | Some old => if bool_decide (old = url) then []
                else [EvSetUrl "origin" url]
  end.

(** What the constructor finds at the folder, or has [git init] make. *)
Definition opened (w : world) : exn + (listing * repo) :=
  match folder_disk w, repository w with
  | Some es, Some r => inr (es, r)
  | d, r =>
      match git_init d with
      | inl e => inl e
      | inr es => inr (es, default fresh_repo r)
      end
  end.

(** [Index._remove_empty_folders] *)
Definition _remove_empty_folders (self : Index) (parent_folder : string)
  : M bool := λ w,
  let r := prune_pass parent_folder (folder_disk w) in
  Return (removed r) (log_all (EvRmdir <$> rmdirs r) (set_disk (left_over r) w)).

(** [Index._fetch_latest] *)
Definition _fetch_latest (self : Index) (branch : option string) : M unit :=
  let* origin := remotes_origin in
  (* Checkout the latest default branch *)
  let* _ :=
    custom_environment (_ssh_command self)
      (try_except (origin_fetch origin)
         (λ e, if is_BadName e then origin_fetch origin else raise e)) in
  let* ref := origin_refs_getitem branch in
  let* _ := ref_checkout ref branch in
  let* files := untracked_files in
  let* _ := for_each files (λ file_name, os_unlink (_folder self) file_name) in
  (* Keep repeating the function until no folders are removed anymore *)
  let* w := get_world in
  while_pass (S (count_dirs_disk (folder_disk w)))
    (_remove_empty_folders self (_folder self)).

(** The two halves of [_fetch_latest], to speak about them one at a time:
    the fetch under the SSH environment, and what follows it. *)
Definition fetch_stage (self : Index) (origin : string) : M unit :=
  custom_environment (_ssh_command self)
    (try_except (origin_fetch origin)
       (λ e, if is_BadName e then origin_fetch origin else raise e)).

Definition clean_stage (self : Index) (branch : option string) : M unit :=
  let* ref := origin_refs_getitem branch in
  let* _ := ref_checkout ref branch in
  let* files := untracked_files in
  let* _ := for_each files (λ file_name, os_unlink (_folder self) file_name) in
  let* w := get_world in
  while_pass (S (count_dirs_disk (folder_disk w)))
    (_remove_empty_folders self (_folder self)).


(** [Index.reload] *)
Definition reload (self : Index) (app : application) : M result :=
  let* w := get_world in
  let* _ := _fetch_latest self (_github_branch (module_globals w)) in
  (* super().reload(application) *)
  let* _ := modify (log EvBaseReload) in
  local_reload app.

(** [click_index_github] *)
Definition click_index_github (index_github_url index_github_branch
    index_github_private_key : option string) : M unit :=
  let* _ := modify (λ w,
    set_globals (Globals (_github_branch (module_globals w))
                         (_github_private_key (module_globals w))
                         index_github_url) w) in
  let* _ := modify (λ w,
    set_globals (Globals index_github_branch
                         (_github_private_key (module_globals w))
                         (_github_url (module_globals w))) w) in
  match index_github_private_key with
  | Some key =>
      if bool_decide (key ≠ "") then
        let* decoded := lift_result (b64decode key) in
        modify (λ w,
          set_globals (Globals (_github_branch (module_globals w))
                               (Some decoded)
                               (_github_url (module_globals w))) w)
      else ret tt
  | None => ret tt
  end.

End github.

(** ** What the refresh relies on

    The contract of the two GitPython calls that act on the working tree,
    for a repository without ignore rules: a forced checkout leaves every
    committed file in the working tree and does not touch a working tree
    that already holds the tree of the index; the status facility lists
    exactly the files of the working tree that the index does not hold. *)
Definition tracked (idx : commit) (p : path) : Prop :=
  ∃ data, file_in p data idx.

Definition conforms (c : commit) (es : listing) : Prop :=
  ∀ p data, file_in p data c → file_in p data es.

Record ToolchainLaws `{Toolchain} : Prop := {
  checkout_conforms c r d d' :
    git_checkout c r d = inr d' → conforms c (working_tree d');
  checkout_clean c r d d' :
    index r = c → conforms c (working_tree d) →
    git_checkout c r d = inr d' → working_tree d' = working_tree d;
  untracked_sound idx d p :
    p ∈ git_untracked idx d →
    (∃ data, file_in p data (working_tree d)) ∧ ¬ tracked idx p;
  untracked_complete idx d p data :
    file_in p data (working_tree d) →
    tracked idx p ∨ p ∈ git_untracked idx d;
}.
Arguments ToolchainLaws _ : clear implicits.

(** ** A toolchain to run the module on

    [git init] adds the metadata directory; a fetch follows a script that
    says, for each attempt, whether it fails and which references the remote
    has; a forced checkout writes the committed files over the directory and
    keeps what else is there; the status lists the files of the working tree
    that are not in the index. *)
Definition git_skeleton : listing :=
  [("HEAD", File "ref: refs/heads/master");
   ("config", File "[core]");
   ("objects", Dir [("info", Dir []); ("pack", Dir [])]);
   ("refs", Dir [("heads", Dir []); ("tags", Dir [])])].

Definition sim_init (d : disk) : exn + listing :=
  let es := default [] d in
  if bool_decide (git_dir_name ∈ es.*1) then inr es
  else inr (es ++ [(git_dir_name, Dir git_skeleton)]).

(** All files of a tree with their content. *)
Fixpoint files_of (n : node) : list (path * string) :=
  match n with
  | File data => [([], data)]
  | Dir es =>
      (fix go (l : listing) : list (path * string) :=
         match l with
         | [] => []
         | e :: l' =>
             ((λ pd, (e.1 :: pd.1, pd.2)) <$> files_of e.2) ++ go l'
         end) es
  end.

Definition files_in (es : listing) : list (path * string) :=
  files_of (Dir es).

Definition conforms_b (c : commit) (es : listing) : bool :=
  bool_decide (files_in c ⊆ files_in es).

(** Entry names are unique on every level. *)
Fixpoint valid_tree (n : node) : bool :=
  match n with
  | File _ => true
  | Dir es =>
      bool_decide (NoDup es.*1) &&
      (fix go (l : listing) : bool :=
         match l with
         | [] => true
         | e :: l' => valid_tree e.2 && go l'
         end) es
  end.

Definition valid_commit (c : commit) : bool :=
  valid_tree (Dir c) && bool_decide (git_dir_name ∉ c.*1).

(** The content of the first directory called [name]. *)
Fixpoint first_dir (name : string) (es : listing) : listing :=
  match es with
  | [] => []
  | (n, Dir sub) :: es' =>
      if bool_decide (n = name) then sub else first_dir name es'
  | _ :: es' => first_dir name es'
  end.

(** Write a committed tree over a directory. *)
Fixpoint write_node (name : string) (n : node) (es : listing) : listing :=
  filter (λ e, e.1 ≠ name) es ++
  [(name,
    match n with
    | File data => File data
    | Dir sub =>
        Dir ((fix go (l : listing) (acc : listing) : listing :=
                match l with
                | [] => acc
                | e :: l' => go l' (write_node e.1 e.2 acc)
                end) sub (first_dir name es))
    end)].

Definition write_tree (c : commit) (es : listing) : listing :=
  foldl (λ acc e, write_node e.1 e.2 acc) es c.

Definition sim_checkout (c : commit) (r : repo) (d : disk) : exn + disk :=
  match d with
  | None => inl (OtherError "GitCommandError")
  | Some es =>
      if valid_commit c then
        inr (Some (if conforms_b c (working_tree d) then es
                   else write_tree c es))
      else inl (OtherError "GitCommandError")
  end.

Definition sim_untracked (idx : commit) (d : disk) : list path :=
  filter (λ p, p ∉ (files_in idx).*1)
         (remove_dups (files_in (working_tree d)).*1).

Definition sim_toolchain (script : nat → exn + gmap string commit)
  : Toolchain := {|
  b64decode s := inr (String.list_byte_of_string s);
  tempfile_name files := "/tmp/tmp" +:+ pretty (size files);
  git_init := sim_init;
  git_fetch n url ssh := script n;
  git_checkout := sim_checkout;
  git_untracked := sim_untracked;
|}.

(** A base class whose [reload] reports the number of entries of the
    folder. *)
Definition sim_local (folder : string) : LocalIndex unit nat := {|
  local_folder := folder;
  local_reload _ := λ w, Return (length (default [] (folder_disk w))) w;
|}.

(** ** Worlds to run the module in *)

(** The tree of a branch, and a second one. *)
Definition main_tree : commit :=
  [("README.md", File "BaNaNaS");
   ("ai", Dir [("41444d4c", Dir [("global.yaml", File "name: AdmiralAI")])])].

Definition staging_tree : commit :=
  [("README.md", File "BaNaNaS (staging)")].

Definition remote_refs : gmap string commit :=
  {["main" := main_tree; "staging" := staging_tree]}.

(** Fetch scripts: every fetch succeeds; the first fetch meets the garbage
    collector; the first two do; the first fails for another reason. *)
Definition fetch_ok (n : nat) : exn + gmap string commit := inr remote_refs.

Definition fetch_badname_once (n : nat) : exn + gmap string commit :=
  match n with 0 => inl BadName | _ => inr remote_refs end.

Definition fetch_badname_twice (n : nat) : exn + gmap string commit :=
  match n with 0 | 1 => inl BadName | _ => inr remote_refs end.

Definition fetch_refused (n : nat) : exn + gmap string commit :=
  match n with
  | 0 => inl (OtherError "GitCommandError")
  | _ => inr remote_refs
  end.

(** A mirror folder that is a repository already, with a file that is not
    part of the branch and a directory that holds nothing but an empty
    directory. *)
Definition mirror_folder : listing :=
  [(".git", Dir git_skeleton);
   ("README.md", File "BaNaNaS");
   ("junk.txt", File "left over");
   ("empty", Dir [("sub", Dir [])])].

Definition configured (branch : string) (key : option (list byte)) : globals :=
  Globals (Some branch) key (Some "https://github.com/OpenTTD/BaNaNaS").

(** Before the constructor has run: the folder is missing, or is there
    without being a repository, or holds a repository whose origin points
    somewhere else. *)
Definition world_without_folder : world :=
  World (configured "main" None) None None None ∅ 0 [].

Definition world_with_plain_folder : world :=
  World (configured "main" None) (Some [("junk.txt", File "left over")])
        None None ∅ 0 [].

Definition world_with_old_origin : world :=
  World (configured "main" None) (Some mirror_folder)
        (Some (Repo_ {["origin" := "https://example.org/old";
                       "backup" := "https://example.org/backup"]} ∅ ∅ None []))
        None ∅ 0 [].

Definition world_with_key : world :=
  World (configured "main" (Some [x61; x62; x63]))
        (Some mirror_folder) None None ∅ 0 [].

(** After the constructor: a repository with origin in place. *)
Definition ready_world (folder : listing) : world :=
  World (configured "main" None) (Some folder)
        (Some (with_origin "https://github.com/OpenTTD/BaNaNaS" fresh_repo))
        None ∅ 0 [].

Definition plain_index (folder : string) : Index := Index_ folder None None.

(** A mirror folder as a fetch and a checkout leave it: the metadata
    directory holds objects and references, and two directories without
    entries. *)
Definition git_dir_after_fetch : listing :=
  [("HEAD", File "ref: refs/heads/main");
   ("config", File "[core]");
   ("objects", Dir [("info", Dir []);
                    ("pack", Dir [("pack-1.pack", File "PACK")])]);
   ("refs", Dir [("heads", Dir [("main", File "41444d4c")]);
                 ("remotes", Dir [("origin", Dir [("main", File "41444d4c")])]);
                 ("tags", Dir [])])].

Definition mirror_after_checkout : listing :=
  [(".git", Dir git_dir_after_fetch);
   ("README.md", File "BaNaNaS");
   ("empty", Dir [("sub", Dir [])])].

(** ** More to say about the tree *)



(** All files below the folder, the metadata directory included. *)
Definition disk_entries (d : disk) : listing := default [] d.

Definition plain_names_disk (d : disk) : bool :=
  match d with None => true | Some es => plain_names (Dir es) end.

(** The fetches among some calls. *)
Definition is_fetch (ev : event) : bool :=
  match ev with EvFetch _ _ => true | _ => false end.


(** ** More worlds, and a git that knows one ignore rule *)

(** A repository that knows another remote, but no origin. *)
Definition world_without_origin : world :=
  World (configured "main" None) (Some mirror_folder)
        (Some (Repo_ {["backup" := "https://example.org/backup"]} ∅ ∅ None []))
        None ∅ 0 [].

(** A folder that is no repository yet, with a key configured, and with the
    empty key [b64decode] gives for a string such as one space. *)
Definition world_with_key_stored : world :=
  World (configured "main" (Some [x61; x62; x63]))
        (Some [("junk.txt", File "left over")]) None None ∅ 0 [].

Definition world_with_empty_key : world :=
  World (configured "main" (Some []))
        (Some [("junk.txt", File "left over")]) None None ∅ 0 [].

(** The content of the first regular file called [name]. *)
Fixpoint file_content (name : string) (es : listing) : option string :=
  match es with
  | [] => None
  | (n, File data) :: es' =>
      if bool_decide (n = name) then Some data else file_content name es'
  | _ :: es' => file_content name es'
  end.

(** [git status] with one kind of ignore rule: an ignore file at the top of
    the working tree, whatever its own status, whose content is a plain
    name hides the files of that name. *)
Definition ignore_file_name : string := ".gitignore".

Definition sim_untracked_ignoring (idx : commit) (d : disk) : list path :=
  match file_content ignore_file_name (working_tree d) with
  | None => sim_untracked idx d
  | Some hidden => filter (λ p, last p ≠ Some hidden) (sim_untracked idx d)
  end.


(** ** Facts about one pruning pass *)

Lemma count_dirs_Dir es : count_dirs (Dir es) = S (count_dirs_in es).
Proof.
  reflexivity.
Qed.

Lemma walk_remove_Dir root es :
  walk_remove root (Dir es) =
    let below := walk_below root es in
    if startswith root ".git" then
      PassResult (removed below) (rmdirs below) (Some (Dir (left_over below)))
    else if negb (truthy (dirs es)) && negb (truthy (nondirs es)) then
      PassResult true (rmdirs below ++ [root]) None
    else
      PassResult (removed below) (rmdirs below) (Some (Dir (left_over below))).
Proof.
  reflexivity.
Qed.

(** A directory without entries is exactly one whose two scan lists are
    empty. *)
Lemma scan_empty es :
  negb (truthy (dirs es)) && negb (truthy (nondirs es)) = true ↔ es = [].
Proof.
  split; [|by intros ->].
  destruct es as [|[name [data|sub]] es]; [done| |]; unfold dirs, nondirs.
  - rewrite (filter_cons_True (λ e, is_dir e.2 = false)) by done.
    rewrite andb_true_iff. by intros [_ ?].
  - rewrite (filter_cons_True (λ e, is_dir e.2 = true)) by done. done.
Qed.

Lemma walk_remove_ok n : ∀ root,
  let r := walk_remove root n in
  pass_ok (count_dirs n) (left_over r = Some n)
          (removed r) (rmdirs r) (count_dirs_opt (left_over r)).
Proof.
  induction n as [data|es IH] using node_ind; intros root.
  { by split. }
  assert (Hbelow : let r := walk_below root es in
    pass_ok (count_dirs_in es) (left_over r = es)
            (removed r) (rmdirs r) (count_dirs_in (left_over r))).
  { induction IH as [|[name c] l Hc _ IHl]; [by split|].
    simpl in *. specialize (Hc (os_path_join root name)).
    destruct Hc as [Hc1 Hc2 Hc3], IHl as [Hl1 Hl2 Hl3].
    destruct (walk_remove (os_path_join root name) c) as [b1 log1 [c'|]],
      (walk_below root l) as [b2 log2 l2]; simpl in *; split; simpl.
    - rewrite length_app. lia.
    - subst. by destruct log1, log2.
    - intros [-> ->]%orb_false_iff. by rewrite Hl3, (Some_inj _ _ (Hc3 eq_refl)).
    - rewrite length_app. lia.
    - subst. by destruct log1, log2.
    - intros [-> ->]%orb_false_iff. by specialize (Hc3 eq_refl). }
  cbv zeta in *. rewrite walk_remove_Dir. cbv zeta.
  destruct Hbelow as [H1 H2 H3].
  rewrite count_dirs_Dir.
  destruct (startswith root ".git").
  { split; cbn [removed rmdirs left_over count_dirs_opt];
      [rewrite count_dirs_Dir; lia|done|].
    intros Hr. by rewrite (H3 Hr). }
  destruct (negb (truthy (dirs es)) && negb (truthy (nondirs es))) eqn:Hscan.
  { apply scan_empty in Hscan as ->. by split. }
  split; cbn [removed rmdirs left_over count_dirs_opt];
    [rewrite count_dirs_Dir; lia|done|].
  intros Hr. by rewrite (H3 Hr).
Qed.

Lemma prune_pass_ok folder d :
  let r := prune_pass folder d in
  pass_ok (count_dirs_disk d) (left_over r = d)
          (removed r) (rmdirs r) (count_dirs_disk (left_over r)).
Proof.
  destruct d as [es|]; [|by split].
  unfold prune_pass. case_bool_decide; [by split|].
  pose proof (walk_remove_ok (Dir es) folder) as Hok. cbv zeta in *.
  unfold count_dirs_disk.
  destruct Hok as [H1 H2 H3].
  destruct (walk_remove folder (Dir es)) as [b log [[?|es']|]] eqn:Hw;
    cbn [removed rmdirs left_over count_dirs_opt] in *.
  - exfalso. rewrite walk_remove_Dir in Hw. cbv zeta in Hw.
    by repeat case_match.
  - split; [done..|]. intros Hb. by specialize (H3 Hb) as [= ->].
  - split; [done..|]. intros Hb. by specialize (H3 Hb).
Qed.

(** A pass either removes a directory and says so, or removes nothing, says
    so and leaves the tree as it was. *)
Lemma prune_pass_cases folder d :
  let r := prune_pass folder d in
  (removed r = true ∧ rmdirs r ≠ [] ∧
   count_dirs_disk (left_over r) < count_dirs_disk d) ∨
  (removed r = false ∧ rmdirs r = [] ∧ left_over r = d).
Proof.
  destruct (prune_pass_ok folder d) as [H1 H2 H3]. cbv zeta.
  destruct (removed (prune_pass folder d)) eqn:Hr.
  - left. destruct (rmdirs (prune_pass folder d)); [done|].
    simpl in H1. split_and!; [done..|lia].
  - right. destruct (rmdirs (prune_pass folder d)); [|done]. auto.
Qed.

(** ** Running the module *)

Lemma bind_assoc {A B C} (c : M A) (k : A → M B) (k' : B → M C) w :
  bind (bind c k) k' w = bind c (λ a, bind (k a) k') w.
Proof. unfold bind. by destruct (c w). Qed.

Lemma bind_ext {A B} (c : M A) (k k' : A → M B) w :
  (∀ a w', k a w' = k' a w') → bind c k w = bind c k' w.
Proof. intros Hk. unfold bind. by destruct (c w). Qed.

Lemma only_calls_refl P w : only_calls P w w.
Proof. split; [done..|]. exists []. by rewrite (right_id_L [] (++)). Qed.

Lemma only_calls_trans P w1 w2 w3 :
  only_calls P w1 w2 → only_calls P w2 w3 → only_calls P w1 w3.
Proof.
  intros [? ? ? ? (evs1 & Ht1 & ?)] [? ? ? ? (evs2 & Ht2 & ?)].
  split; [congruence..|]. exists (evs1 ++ evs2).
  rewrite Ht2, Ht1, (assoc_L (++)). split; [done|]. by apply Forall_app.
Qed.

Lemma only_calls_log (P : event → Prop) ev w : P ev → only_calls P w (log ev w).
Proof. intros HP. split; [done..|]. exists [ev]. by split; [|constructor]. Qed.

Lemma only_calls_log_all (P : event → Prop) evs w :
  Forall P evs → only_calls P w (log_all evs w).
Proof. intros HP. split; [done..|]. by exists evs. Qed.

Section loop.
Context {T : Toolchain}.

Lemma remove_empty_folders_run self folder w :
  _remove_empty_folders self folder w =
    Return (removed (prune_pass folder (folder_disk w)))
      (log_all (EvRmdir <$> rmdirs (prune_pass folder (folder_disk w)))
         (set_disk (left_over (prune_pass folder (folder_disk w))) w)).
Proof. reflexivity. Qed.

(** The loop of [_fetch_latest] ends after at most as many removing passes
    as there are directories, whatever the bound beyond that. *)
Lemma while_pass_prune self folder fuel : ∀ w,
  count_dirs_disk (folder_disk w) < fuel →
  ∃ k w',
    while_pass fuel (_remove_empty_folders self folder) w = Return tt w' ∧
    k ≤ count_dirs_disk (folder_disk w) ∧
    folder_disk w' = after_passes k folder (folder_disk w) ∧
    (∀ i, i < k →
       removed (prune_pass folder (after_passes i folder (folder_disk w)))
         = true) ∧
    removed (prune_pass folder (after_passes k folder (folder_disk w)))
      = false ∧
    repository w' = repository w ∧
    ∀ branch, only_calls (local_call branch) w w'.
Proof.
  induction fuel as [|fuel IH]; intros w Hfuel; [lia|].
  cbn [while_pass]. unfold bind at 1. rewrite remove_empty_folders_run.
  set (w1 := log_all _ _).
  assert (∀ branch, only_calls (local_call branch) w w1) as Hw1.
  { intros branch. split; [done..|]. eexists. split; [done|].
    apply Forall_fmap, Forall_true. done. }
  destruct (prune_pass_cases folder (folder_disk w))
    as [(Hr & _ & Hlt)|(Hr & Hlog & Hsame)]; cbv zeta in *; rewrite Hr.
  - destruct (IH w1) as (k & w' & Hrun & Hk & Hdisk & Hbefore & Hlast & Hrepo & Hcalls).
    { simpl. lia. }
    exists (S k), w'. split_and!; [done|simpl in *; lia|done| |done|done|].
    + intros [|i] Hi; [done|]. apply Hbefore. lia.
    + intros branch. by eapply only_calls_trans.
  - exists 0, w1. split_and!; [done|lia|by simpl|intros; lia|done..].
Qed.

End loop.

(** ** The stages of [_fetch_latest] *)

Section stages.
Context {T : Toolchain}.

Lemma fetch_latest_stages self branch :
  _fetch_latest self branch =
    (let* origin := remotes_origin in
     let* _ := fetch_stage self origin in
     clean_stage self branch).
Proof. reflexivity. Qed.

Lemma os_unlink_calls branch folder p w w' :
  outcome_world (os_unlink folder p w) = Some w' →
  only_calls (local_call branch) w w' ∧ repository w' = repository w.
Proof.
  unfold os_unlink. intros Hw.
  assert (w' = log (EvUnlink (folder +:+ "/" +:+ path_str p)) w ∨
          ∃ d, w' = set_disk d (log (EvUnlink (folder +:+ "/" +:+ path_str p)) w))
    as [->|[d ->]].
  { repeat case_match; simplify_eq/=; eauto. }
  - split; [|done]. by apply only_calls_log.
  - split; [|done]. split; [done..|]. eexists [_]. by split; [|constructor].
Qed.

Lemma for_each_unlink_calls branch folder ps : ∀ w w',
  outcome_world (for_each ps (os_unlink folder) w) = Some w' →
  only_calls (local_call branch) w w' ∧ repository w' = repository w.
Proof.
  induction ps as [|p ps IH]; intros w w' Hw; simpl in Hw.
  { simplify_eq/=. split; [apply only_calls_refl|done]. }
  unfold bind in Hw.
  destruct (os_unlink folder p w) as [[] w1|e w1|] eqn:Hp; [| |done].
  - destruct (os_unlink_calls branch folder p w w1) as [H1 H1']; [by rewrite Hp|].
    destruct (IH _ _ Hw) as [H2 H2'].
    split; [by eapply only_calls_trans|congruence].
  - simplify_eq/=. apply (os_unlink_calls branch folder p w). by rewrite Hp.
Qed.

(** What the loop over the untracked files leaves on disk when it ends
    without an exception. *)
Lemma for_each_unlink_disk folder ps : ∀ w w',
  for_each ps (os_unlink folder) w = Return tt w' →
  folder_disk w' =
    (λ es, foldl (λ acc p, remove_file p acc) es ps) <$> folder_disk w.
Proof.
  induction ps as [|p ps IH]; intros w w' Hw; simpl in Hw.
  { unfold ret in Hw. simplify_eq/=. by destruct (folder_disk w'). }
  unfold bind in Hw.
  destruct (os_unlink folder p w) as [[] w1|e w1|] eqn:Hp; [|done..].
  rewrite (IH _ _ Hw). unfold os_unlink in Hp.
  destruct (folder_disk w) as [es|] eqn:Hd; [|done].
  case_bool_decide; [done|].
  by destruct (has_file p es) eqn:Hf; simplify_eq/=.
Qed.

(** The second half under its three conditions of success: the branch is
    known at origin and the checkout goes through. *)
Lemma clean_stage_eq self b w r c d1 :
  repository w = Some r → origin_refs r !! b = Some c →
  git_checkout c r (folder_disk w) = inr d1 →
  clean_stage self (Some b) w =
    (let* _ := for_each (git_untracked c d1) (os_unlink (_folder self)) in
     let* w2 := get_world in
     while_pass (S (count_dirs_disk (folder_disk w2)))
       (_remove_empty_folders self (_folder self)))
    (set_disk d1 (set_repository (Some (checked_out b c r))
                    (log (EvCheckout b) w))).
Proof.
  intros Hr Hc Hd.
  unfold clean_stage, origin_refs_getitem, ref_checkout, untracked_files,
    the_repo.
  run. rewrite Hr. cbn. rewrite Hc. cbn. rewrite Hr, Hd. by cbn.
Qed.

(** Otherwise it raises before anything on disk has changed. *)
Lemma clean_stage_fails self branch w :
  (∀ r b c d1, repository w = Some r → branch = Some b →
     origin_refs r !! b = Some c →
     git_checkout c r (folder_disk w) ≠ inr d1) →
  ∃ e w', clean_stage self branch w = Raise e w' ∧
    folder_disk w' = folder_disk w ∧ repository w' = repository w ∧
    only_calls (local_call branch) w w'.
Proof.
  intros Hno.
  unfold clean_stage, origin_refs_getitem, ref_checkout, untracked_files,
    the_repo.
  run. destruct (repository w) as [r|] eqn:Hr; cbn.
  2:{ eexists _, w. eauto using only_calls_refl. }
  destruct branch as [b|]; cbn.
  2:{ eexists _, w. eauto using only_calls_refl. }
  destruct (origin_refs r !! b) as [c|] eqn:Hc; cbn.
  2:{ eexists _, w. eauto using only_calls_refl. }
  rewrite Hr.
  destruct (git_checkout c r (folder_disk w)) as [e|d1] eqn:Hd.
  2:{ by destruct (Hno r b c d1). }
  eexists _, _. split_and!; [done..|]. by apply only_calls_log.
Qed.

Lemma for_each_unlink_ends folder ps : ∀ w,
  for_each ps (os_unlink folder) w ≠ Unfinished.
Proof.
  induction ps as [|p ps IH]; intros w; [done|]. simpl. unfold bind.
  destruct (os_unlink folder p w) as [[] w1|e w1|] eqn:Hp; [by apply IH|done|].
  unfold os_unlink in Hp. by repeat case_match.
Qed.

(** The second half always ends. When it returns, the branch was found at
    origin, its tree was checked out, the files the status listed after the
    checkout were unlinked, and pruning passes ran until one removed
    nothing. *)
Lemma clean_stage_spec self branch w :
  match clean_stage self branch w with
  | Unfinished => False
  | Raise e w' => only_calls (local_call branch) w w'
  | Return _ w' =>
      only_calls (local_call branch) w w' ∧
      ∃ r b c d1 k,
        repository w = Some r ∧ branch = Some b ∧
        origin_refs r !! b = Some c ∧
        git_checkout c r (folder_disk w) = inr d1 ∧
        repository w' = Some (checked_out b c r) ∧
        folder_disk w' =
          after_passes k (_folder self)
            ((λ es, foldl (λ acc p, remove_file p acc) es (git_untracked c d1))
               <$> d1) ∧
        removed (prune_pass (_folder self) (folder_disk w')) = false
  end.
Proof.
  destruct (repository w) as [r|] eqn:Hr.
  2:{ destruct (clean_stage_fails self branch w) as (e & w' & -> & _ & _ & ?);
        [congruence|done]. }
  destruct branch as [b|].
  2:{ destruct (clean_stage_fails self None w) as (e & w' & -> & _ & _ & ?);
        [congruence|done]. }
  destruct (origin_refs r !! b) as [c|] eqn:Hc.
  2:{ destruct (clean_stage_fails self (Some b) w) as (e & w' & -> & _ & _ & ?);
        [congruence|done]. }
  destruct (git_checkout c r (folder_disk w)) as [e|d1] eqn:Hd.
  { destruct (clean_stage_fails self (Some b) w) as (e' & w' & -> & _ & _ & ?);
      [congruence|done]. }
  rewrite (clean_stage_eq self b w r c d1) by done.
  set (w1 := set_disk d1 _).
  assert (only_calls (local_call (Some b)) w w1) as Hw1.
  { split; [done..|]. exists [EvCheckout b]. by split; [|constructor]. }
  unfold bind at 1.
  destruct (for_each (git_untracked c d1) (os_unlink (_folder self)) w1)
    as [[] w2|e w2|] eqn:Hloop.
  - destruct (for_each_unlink_calls (Some b) (_folder self)
                (git_untracked c d1) w1 w2) as [Hc2 Hr2];
      [by rewrite Hloop|].
    apply for_each_unlink_disk in Hloop.
    unfold bind, get_world.
    destruct (while_pass_prune self (_folder self)
                (S (count_dirs_disk (folder_disk w2))) w2)
      as (k & w' & -> & _ & Hdisk & _ & Hlast & Hrepo & Hcalls); [lia|].
    split; [eauto using only_calls_trans|].
    exists r, b, c, d1, k.
    split_and!; [done..|by rewrite Hrepo, Hr2| |by rewrite Hdisk].
    by rewrite Hdisk, Hloop.
  - eapply only_calls_trans; [done|].
    eapply for_each_unlink_calls. by rewrite Hloop.
  - by apply for_each_unlink_ends in Hloop.
Qed.

(** When the second half raises, either the folder is as it was, or the
    checkout went through and the loop over a status list that was not
    empty raised. *)
Lemma clean_stage_raise self branch w e w' :
  clean_stage self branch w = Raise e w' →
  (folder_disk w' = folder_disk w ∧ repository w' = repository w) ∨
  ∃ r b c d1,
    repository w = Some r ∧ branch = Some b ∧
    origin_refs r !! b = Some c ∧
    git_checkout c r (folder_disk w) = inr d1 ∧
    git_untracked c d1 ≠ [] ∧
    repository w' = Some (checked_out b c r).
Proof.
  intros Hrun.
  assert ((∀ r b c d1, repository w = Some r → branch = Some b →
             origin_refs r !! b = Some c →
             git_checkout c r (folder_disk w) ≠ inr d1) →
          folder_disk w' = folder_disk w ∧ repository w' = repository w)
    as Hfails.
  { intros Hno.
    destruct (clean_stage_fails self branch w Hno) as (? & ? & Heq & ? & ? & _).
    rewrite Hrun in Heq. by injection Heq as <- <-. }
  destruct (repository w) as [r|] eqn:Hr; [|left; apply Hfails; congruence].
  destruct branch as [b|]; [|left; apply Hfails; congruence].
  destruct (origin_refs r !! b) as [c|] eqn:Hc;
    [|left; apply Hfails; congruence].
  destruct (git_checkout c r (folder_disk w)) as [e'|d1] eqn:Hd;
    [left; apply Hfails; congruence|].
  right. exists r, b, c, d1. split_and!; [done..| |].
  - intros Hnone. rewrite (clean_stage_eq self b w r c d1) in Hrun by done.
    rewrite Hnone in Hrun. cbn [for_each] in Hrun. unfold bind, ret in Hrun.
    destruct (while_pass_prune self (_folder self)
      (S (count_dirs_disk d1))
      (set_disk d1 (set_repository (Some (checked_out b c r))
                      (log (EvCheckout b) w))))
      as (k & w2 & Hloop & _); [simpl; lia|].
    unfold get_world in Hrun. simpl in Hrun, Hloop. congruence.
  - rewrite (clean_stage_eq self b w r c d1) in Hrun by done.
    unfold bind at 1 in Hrun.
    destruct (for_each (git_untracked c d1) (os_unlink (_folder self)) _)
      as [[] w2|e2 w2|] eqn:Hloop; [| |done].
    + unfold bind, get_world in Hrun.
      destruct (while_pass_prune self (_folder self)
                  (S (count_dirs_disk (folder_disk w2))) w2)
        as (k & w3 & Hw & _); [lia|]. congruence.
    + injection Hrun as <- <-.
      destruct (for_each_unlink_calls (Some b) (_folder self)
                  (git_untracked c d1)
                  (set_disk d1 (set_repository (Some (checked_out b c r))
                                  (log (EvCheckout b) w))) w2) as [_ Hr2];
        [by rewrite Hloop|].
      by rewrite Hr2.
Qed.

(** The first half, case by case: what the first attempt gives, and what
    the second gives when the first raised [BadName]. *)
Lemma fetch_stage_eq self origin w r url :
  repository w = Some r → remotes r !! origin = Some url →
  let ssh := _ssh_command self in
  let restore := set_environment (git_environment w) in
  let w1 := attempt url (set_environment ssh w) in
  let w2 := attempt url w1 in
  fetch_stage self origin w =
    match git_fetch (fetch_count w) url ssh with
    | inr refs => Return tt (restore (set_repository (Some (fetched refs r)) w1))
    | inl e =>
        if is_BadName e then
          match git_fetch (S (fetch_count w)) url ssh with
          | inr refs =>
              Return tt (restore (set_repository (Some (fetched refs r)) w2))
          | inl e2 => Raise e2 (restore w2)
          end
        else Raise e (restore w1)
    end.
Proof.
  intros Hr Hu. cbv zeta.
  unfold fetch_stage, custom_environment, origin_fetch, remote_url, the_repo.
  run. repeat first [rewrite Hr | rewrite Hu | progress cbn].
  destruct (git_fetch (fetch_count w) url (_ssh_command self)) as [e|refs];
    [|done].
  destruct e; cbn; try done.
  repeat first [rewrite Hr | rewrite Hu | progress cbn].
  by destruct (git_fetch (S (fetch_count w)) url (_ssh_command self)).
Qed.

Lemma fetch_latest_eq self branch w r url :
  repository w = Some r → remotes r !! "origin" = Some url →
  _fetch_latest self branch w =
    match fetch_stage self "origin" w with
    | Return _ w1 => clean_stage self branch w1
    | Raise e w1 => Raise e w1
    | Unfinished => Unfinished
    end.
Proof.
  intros Hr Hu. rewrite fetch_latest_stages.
  unfold remotes_origin, the_repo. run. rewrite Hr. cbn. by rewrite Hu.
Qed.

(** Without a repository or without a remote called origin the refresh
    raises at once. *)
Lemma fetch_latest_no_origin self branch w :
  (∀ r, repository w = Some r → remotes r !! "origin" = None) →
  ∃ e, _fetch_latest self branch w = Raise e w.
Proof.
  intros Hno. rewrite fetch_latest_stages.
  unfold remotes_origin, the_repo, no_repository. run.
  destruct (repository w) as [r|]; cbn; [|by eexists].
  rewrite (Hno r eq_refl). by eexists.
Qed.

Lemma local_call_refresh_call ssh branch ev :
  local_call branch ev → refresh_call ssh branch ev.
Proof. by destruct ev. Qed.

(** The refresh always ends, and the calls it makes are fetches under the
    SSH command of the index, a checkout of the branch it was given, and
    removals of files and directories; it leaves the environment and the
    module state as they were. *)
Lemma fetch_latest_calls self branch w :
  ∃ w', outcome_world (_fetch_latest self branch w) = Some w' ∧
    git_environment w' = git_environment w ∧
    module_globals w' = module_globals w ∧
    ∃ evs, trace w' = trace w ++ evs ∧
           Forall (refresh_call (_ssh_command self) branch) evs.
Proof.
  destruct (repository w) as [r|] eqn:Hr.
  2:{ destruct (fetch_latest_no_origin self branch w) as [e ->]; [congruence|].
      exists w. split_and!; [done..|]. exists [].
      split; [by rewrite (right_id_L [] (++))|constructor]. }
  destruct (remotes r !! "origin") as [url|] eqn:Hu.
  2:{ destruct (fetch_latest_no_origin self branch w) as [e ->]; [congruence|].
      exists w. split_and!; [done..|]. exists [].
      split; [by rewrite (right_id_L [] (++))|constructor]. }
  rewrite (fetch_latest_eq self branch w r url Hr Hu).
  rewrite (fetch_stage_eq self "origin" w r url Hr Hu). cbv zeta.
  assert (∀ w1 evs1,
    git_environment w1 = git_environment w →
    module_globals w1 = module_globals w →
    trace w1 = trace w ++ evs1 →
    Forall (refresh_call (_ssh_command self) branch) evs1 →
    ∃ w', outcome_world (clean_stage self branch w1) = Some w' ∧
      git_environment w' = git_environment w ∧
      module_globals w' = module_globals w ∧
      ∃ evs, trace w' = trace w ++ evs ∧
             Forall (refresh_call (_ssh_command self) branch) evs) as Hclean.
  { intros w1 evs1 He1 Hg1 Ht1 Hall1.
    pose proof (clean_stage_spec self branch w1) as Hs.
    destruct (clean_stage self branch w1) as [[] w'|e w'|]; [| |done].
    - destruct Hs as [[Hg He _ _ (evs & Ht & Hall)] _]. exists w'.
      split_and!; [done|congruence..|]. exists (evs1 ++ evs).
      rewrite Ht, Ht1, (assoc_L (++)). split; [done|].
      apply Forall_app. split; [done|].
      eapply Forall_impl; [done|]. apply local_call_refresh_call.
    - destruct Hs as [Hg He _ _ (evs & Ht & Hall)]. exists w'.
      split_and!; [done|congruence..|]. exists (evs1 ++ evs).
      rewrite Ht, Ht1, (assoc_L (++)). split; [done|].
      apply Forall_app. split; [done|].
      eapply Forall_impl; [done|]. apply local_call_refresh_call. }
  destruct (git_fetch (fetch_count w) url (_ssh_command self)) as [e|refs].
  - destruct (is_BadName e).
    + destruct (git_fetch (S (fetch_count w)) url (_ssh_command self))
        as [e2|refs].
      * eexists. split_and!; [done..|].
        exists [EvFetch url (_ssh_command self); EvFetch url (_ssh_command self)].
        split; [cbn; by rewrite <-(assoc_L (++))|]. by repeat constructor.
      * apply (Hclean _ [EvFetch url (_ssh_command self);
                         EvFetch url (_ssh_command self)]); [done..| |].
        -- cbn. by rewrite <-(assoc_L (++)).
        -- by repeat constructor.
    + eexists. split_and!; [done..|].
      exists [EvFetch url (_ssh_command self)]. split; [done|].
      by repeat constructor.
  - apply (Hclean _ [EvFetch url (_ssh_command self)]); [done..|].
    by repeat constructor.
Qed.

Lemma fetch_latest_ends self branch w :
  _fetch_latest self branch w ≠ Unfinished.
Proof.
  destruct (fetch_latest_calls self branch w) as (w' & Hw & _).
  by destruct (_fetch_latest self branch w).
Qed.

End stages.

(** ** The constructor, part by part *)

Section constructor.
Context {T : Toolchain} {application result : Type}.
Context {L : LocalIndex application result}.

Lemma init_stages w :
  Index__init__ w =
    (let* w0 := get_world in
     let* '(key_file, ssh_command) := key_stage (module_globals w0) in
     let* _ := open_stage local_folder in
     let* _ := origin_stage (module_globals w0) in
     ret (Index_ local_folder key_file ssh_command)) w.
Proof.
  unfold Index__init__.
  apply bind_ext; intros w0 w1. apply bind_ext; intros [key_file ssh] w2.
  apply bind_ext; intros _ w3. unfold origin_stage.
  rewrite bind_assoc. apply bind_ext; intros known w4.
  rewrite bind_assoc. apply bind_ext; intros _ w5.
  rewrite bind_assoc. apply bind_ext; intros origin w6.
  rewrite bind_assoc. by apply bind_ext.
Qed.

(** The key stage never raises. With a key it leaves it in a fresh temporary
    file and names that file in the SSH command. *)
Lemma key_stage_spec w :
  let key := _github_private_key (module_globals w) in
  let name := tempfile_name (tempfiles w) in
  ∃ w',
    key_stage (module_globals w) w =
      Return (key_file_for key name,
              ssh_command_for key name) w' ∧
    folder_disk w' = folder_disk w ∧ repository w' = repository w ∧
    module_globals w' = module_globals w ∧
    fetch_count w' = fetch_count w ∧
    (∀ k, key = Some k → truthy k = true → tempfiles w' !! name = Some k) ∧
    trace w' = trace w ++ key_events key name.
Proof.
  cbv zeta. unfold key_stage, ssh_command_for, key_file_for, key_events, ret.
  destruct (_github_private_key (module_globals w)) as [key|].
  2:{ exists w. split_and!; [done..|]. by rewrite (right_id_L [] (++)). }
  destruct (truthy key) eqn:Hkey.
  2:{ exists w. split_and!; [done..|congruence|].
      by rewrite (right_id_L [] (++)). }
  unfold NamedTemporaryFile, tempfile_write. run.
  eexists. split_and!; [done..| |done].
  intros k [= <-] _. cbn. by rewrite lookup_alter_eq, lookup_insert_eq.
Qed.

(** Opening the repository: an existing repository is taken as it is; in
    the two other cases [git init] runs on the folder, and only its failure
    is raised. *)
Lemma open_stage_spec folder w :
  let w1 := log_all (open_events folder w) w in
  open_stage folder w =
    match opened w with
    | inl e => Raise e w1
    | inr (es, r) =>
        Return tt (set_repository (Some r) (set_disk (Some es) w1))
    end.
Proof.
  unfold open_stage, Repo, Repo_init, opened, open_events. run.
  destruct (folder_disk w) eqn:Hd, (repository w) eqn:Hr; cbn;
    rewrite ?Hd, ?Hr; try (destruct (git_init _)); cbn;
    unfold log_all, log, set_repository, set_disk; cbn;
    rewrite <-?(assoc_L (++)); try done.
  all: by destruct w; cbn in *; subst.
Qed.

(** Making sure of origin: with a configured URL and a repository, origin
    points at the URL afterwards and nothing else has changed. *)
Lemma origin_stage_spec g w r url :
  repository w = Some r → _github_url g = Some url →
  ∃ w',
    origin_stage g w = Return tt w' ∧
    repository w' = Some (with_origin url r) ∧
    folder_disk w' = folder_disk w ∧
    module_globals w' = module_globals w ∧
    tempfiles w' = tempfiles w ∧
    fetch_count w' = fetch_count w ∧
    trace w' = trace w ++ origin_events url r.
Proof.
  intros Hr Hu.
  unfold origin_stage, remotes_contains, create_remote, remotes_origin,
    remote_url, set_url, the_repo, with_origin, origin_events.
  run. rewrite Hu.
  repeat first [rewrite Hr | progress cbn].
  destruct (remotes r !! "origin") as [old|] eqn:Ho.
  - rewrite bool_decide_eq_true_2 by eauto. cbn.
    repeat first [rewrite Hr | rewrite Ho | progress cbn].
    destruct (decide (old = url)) as [->|Hne].
    + rewrite (bool_decide_eq_false_2 (Some url ≠ Some url)) by naive_solver.
      rewrite (bool_decide_eq_true_2 (url = url)) by done.
      exists w. split_and!; [done| |done..|by rewrite (right_id_L [] (++))].
      rewrite Hr. destruct r. cbn in *. by rewrite insert_id.
    + rewrite (bool_decide_eq_true_2 (Some old ≠ Some url)) by naive_solver.
      rewrite (bool_decide_eq_false_2 (old = url)) by done. cbn.
      repeat first [rewrite Hr | rewrite Ho | progress cbn].
      eexists. by split_and!.
  - rewrite bool_decide_eq_false_2 by (intros [? ?]; congruence). cbn.
    repeat first [rewrite Hr | rewrite Ho | rewrite lookup_insert_eq
                 | progress cbn].
    rewrite (bool_decide_eq_false_2 (Some url ≠ Some url)) by naive_solver.
    eexists. by split_and!.
Qed.

(** The constructor as a whole, for a configured URL: it raises only what
    [git init] raises; otherwise it returns the index with the SSH command
    for the key, in a world where the folder holds the repository found or
    made, origin points at the URL, and no fetch has been made. *)
Lemma init_spec w url :
  _github_url (module_globals w) = Some url →
  let key := _github_private_key (module_globals w) in
  let name := tempfile_name (tempfiles w) in
  let self := Index_ local_folder (key_file_for key name)
                     (ssh_command_for key name) in
  let evs := key_events key name ++ open_events local_folder w in
  match opened w with
  | inl e =>
      ∃ w', Index__init__ w = Raise e w' ∧ trace w' = trace w ++ evs ∧
            fetch_count w' = fetch_count w
  | inr (es, r) =>
      ∃ w', Index__init__ w = Return self w' ∧
            folder_disk w' = Some es ∧
            repository w' = Some (with_origin url r) ∧
            module_globals w' = module_globals w ∧
            fetch_count w' = fetch_count w ∧
            (∀ k, key = Some k → truthy k = true →
                  tempfiles w' !! name = Some k) ∧
            trace w' = trace w ++ evs ++ origin_events url r
  end.
Proof.
  intros Hu. cbv zeta.
  destruct (key_stage_spec w) as (w1 & Hkey & Hd1 & Hr1 & Hg1 & Hc1 & Hf1 & Ht1).
  assert (opened w1 = opened w) as Hop.
  { unfold opened. by rewrite Hd1, Hr1. }
  assert (open_events local_folder w1 = open_events local_folder w) as Hev.
  { unfold open_events. by rewrite Hd1, Hr1. }
  pose proof (open_stage_spec local_folder w1) as Hopen. cbv zeta in Hopen.
  rewrite Hop, Hev in Hopen.
  destruct (opened w) as [e|[es r]].
  { eexists. rewrite init_stages. unfold bind, get_world.
    rewrite Hkey, Hopen. split_and!; [done| |done].
    cbn. by rewrite Ht1, (assoc_L (++)). }
  destruct (origin_stage_spec (module_globals w)
              (set_repository (Some r) (set_disk (Some es)
                 (log_all (open_events local_folder w) w1))) r url)
    as (w3 & Ho & Hr3 & Hd3 & Hg3 & Hf3 & Hc3 & Ht3); [done..|].
  exists w3. rewrite init_stages. unfold bind, get_world.
  rewrite Hkey, Hopen, Ho. split; [done|].
  split_and!; [by rewrite Hd3|done|by rewrite Hg3|by rewrite Hc3| |].
  - intros k Hk Htr. rewrite Hf3. by apply Hf1.
  - rewrite Ht3. cbn. by rewrite Ht1, !(assoc_L (++)).
Qed.

(** [reload] is the refresh followed by the [reload] of the base class. *)
Lemma reload_run self (app : application) w :
  match _fetch_latest self (_github_branch (module_globals w)) w with
  | Return _ w1 => reload self app w = local_reload app (log EvBaseReload w1)
  | Raise e w1 => reload self app w = Raise e w1
  | Unfinished => False
  end.
Proof.
  pose proof (fetch_latest_ends self (_github_branch (module_globals w)) w).
  unfold reload. run.
  by destruct (_fetch_latest self (_github_branch (module_globals w)) w).
Qed.

End constructor.

(** ** Files under removals *)

Lemma file_in_nil p data : ¬ file_in p data [].
Proof.
  destruct p as [|name [|]]; simpl; [tauto|by intros ?%elem_of_nil|].
  by intros (sub & ?%elem_of_nil & _).
Qed.

Lemma file_in_nonempty p data es : file_in p data es → p ≠ [].
Proof. by destruct p. Qed.

Lemma file_in_cons name x p data es :
  file_in (name :: x :: p) data es ↔
  ∃ sub, (name, Dir sub) ∈ es ∧ file_in (x :: p) data sub.
Proof. done. Qed.

(** Unlinking a file takes that file away and no other. *)
Lemma file_in_remove_file q : ∀ p data es,
  file_in p data (remove_file q es) ↔ file_in p data es ∧ p ≠ q.
Proof.
  induction q as [|name q IH]; intros p data es.
  { simpl. split; [|by intros []]. intros Hp. split; [done|].
    by apply file_in_nonempty in Hp. }
  destruct q as [|x q].
  - (* the last component: the files of that name go *)
    cbn [remove_file]. destruct p as [|n [|y p]].
    + simpl. tauto.
    + simpl. rewrite list_elem_of_filter. unfold is_file_named. simpl.
      rewrite andb_true_r. rewrite bool_decide_eq_false. split.
      * intros [? ?]. split; [done|congruence].
      * intros [? ?]. split; [congruence|done].
    + rewrite !file_in_cons. split.
      * intros (sub & [_ Hin]%list_elem_of_filter & Hsub). eauto.
      * intros [(sub & Hin & Hsub) _]. exists sub. split; [|done].
        apply list_elem_of_filter. split; [|done].
        unfold is_file_named. simpl. by rewrite andb_false_r.
  - (* a directory on the way *)
    cbn [remove_file]. destruct p as [|n [|y p]].
    + simpl. tauto.
    + simpl. rewrite list_elem_of_fmap. split.
      * intros ([n' [d|sub]] & Heq & Hin); simpl in Heq.
        -- by simplify_eq.
        -- by case_bool_decide.
      * intros [Hin _]. by exists (n, File data).
    + rewrite !file_in_cons. split.
      * intros (sub' & ([n' [d|sub]] & Heq & Hin)%list_elem_of_fmap & Hsub);
          simpl in Heq; [done|].
        case_bool_decide; simplify_eq.
        -- apply IH in Hsub as [Hsub Hne]. split; [eauto|congruence].
        -- split; [eauto|congruence].
      * intros [(sub & Hin & Hsub) Hne].
        destruct (decide (n = name)) as [->|Hn].
        -- exists (remove_file (x :: q) sub). split.
           ++ apply list_elem_of_fmap. exists (name, Dir sub). simpl.
              by rewrite bool_decide_eq_true_2.
           ++ apply IH. split; [done|congruence].
        -- exists sub. split; [|done].
           apply list_elem_of_fmap. exists (n, Dir sub). simpl.
           by rewrite bool_decide_eq_false_2.
Qed.

Lemma file_in_unlink_all qs : ∀ p data es,
  file_in p data (foldl (λ acc q, remove_file q acc) es qs) ↔
  file_in p data es ∧ p ∉ qs.
Proof.
  induction qs as [|q qs IH]; intros p data es; simpl.
  { split; [|by intros []]. intros ?. split; [done|]. apply not_elem_of_nil. }
  rewrite IH, file_in_remove_file, not_elem_of_cons. tauto.
Qed.

(** The working tree is the folder without what is called [.git]. *)
Lemma file_in_working_tree p data es :
  file_in p data (working_tree (Some es)) ↔
  file_in p data es ∧ ∃ name p', p = name :: p' ∧ name ≠ git_dir_name.
Proof.
  unfold working_tree. destruct p as [|name [|x p]].
  - simpl. tauto.
  - simpl. rewrite list_elem_of_filter. simpl. split.
    + intros [? ?]. eauto.
    + intros [? (? & ? & [= <- <-] & ?)]. done.
  - rewrite !file_in_cons. split.
    + intros (sub & [HP Hin]%list_elem_of_filter & Hsub). eauto 10.
    + intros [(sub & Hin & Hsub) (? & ? & [= <- <-] & HP)].
      exists sub. by rewrite list_elem_of_filter.
Qed.

(** ** Files under pruning *)

Lemma elem_of_walk_below root es name n' :
  (name, n') ∈ left_over (walk_below root es) ↔
  ∃ n, (name, n) ∈ es ∧
       left_over (walk_remove (os_path_join root name) n) = Some n'.
Proof.
  induction es as [|[name0 c] es IH]; simpl.
  { split; [by intros ?%elem_of_nil|by intros (? & ?%elem_of_nil & _)]. }
  destruct (left_over (walk_remove (os_path_join root name0) c)) as [c'|] eqn:Hc.
  - rewrite elem_of_cons, IH. split.
    + intros [[= -> ->]|(n & Hin & Hn)].
      * exists c. split; [left|]; done.
      * exists n. split; [by right|done].
    + intros (n & [[= -> ->]|Hin]%elem_of_cons & Hn).
      * left. congruence.
      * right. eauto.
  - rewrite IH. split.
    + intros (n & Hin & Hn). exists n. split; [by right|done].
    + intros (n & [[= -> ->]|Hin]%elem_of_cons & Hn); [congruence|eauto].
Qed.

(** A pass removes directories only: what it leaves has the files it found,
    and what it takes away had no entries. *)
Lemma walk_remove_files n : ∀ root,
  match left_over (walk_remove root n) with
  | Some n' => same_files n n'
  | None => n = Dir []
  end.
Proof.
  induction n as [data|es IH] using node_ind; intros root; [done|].
  rewrite Forall_forall in IH.
  assert (∀ p data, file_in p data (left_over (walk_below root es)) ↔
                    file_in p data es) as Hbelow.
  { intros [|name [|x p]] data.
    - simpl. tauto.
    - simpl. rewrite elem_of_walk_below. split.
      + intros (n & Hin & Hn).
        pose proof (IH _ Hin (os_path_join root name)) as Hs. cbn [snd] in Hs.
        rewrite Hn in Hs. by destruct n; unfold same_files in Hs; subst.
      + intros Hin. by exists (File data).
    - rewrite !file_in_cons. split.
      + intros (sub' & (n & Hin & Hn)%elem_of_walk_below & Hsub).
        pose proof (IH _ Hin (os_path_join root name)) as Hs. cbn [snd] in Hs.
        rewrite Hn in Hs. destruct n as [|sub]; unfold same_files in Hs;
          [done|].
        exists sub. split; [done|]. by apply Hs.
      + intros (sub & Hin & Hsub).
        pose proof (IH _ Hin (os_path_join root name)) as Hs. cbn [snd] in Hs.
        destruct (left_over (walk_remove (os_path_join root name) (Dir sub)))
          as [[|sub']|] eqn:Hn; unfold same_files in Hs; [done| |].
        * exists sub'. split; [|by apply Hs].
          apply elem_of_walk_below. eauto.
        * injection Hs as ->. by apply file_in_nil in Hsub. }
  rewrite walk_remove_Dir. cbv zeta.
  destruct (startswith root ".git"); [done|].
  destruct (negb (truthy (dirs es)) && negb (truthy (nondirs es))) eqn:Hscan;
    [|done].
  cbn [left_over]. by apply scan_empty in Hscan as ->.
Qed.

Lemma file_in_walk_below root es p data :
  file_in p data (left_over (walk_below root es)) ↔ file_in p data es.
Proof.
  pose proof (walk_remove_files (Dir es) root) as Hs.
  rewrite walk_remove_Dir in Hs. cbv zeta in Hs.
  destruct (startswith root ".git"); [by apply Hs|].
  destruct (negb (truthy (dirs es)) && negb (truthy (nondirs es))) eqn:Hscan;
    [|by apply Hs].
  by apply scan_empty in Hscan as ->.
Qed.

(** Files of the working tree before and after a pass, and after any number
    of passes. *)
Lemma file_in_prune_pass folder d p data :
  file_in p data (working_tree (left_over (prune_pass folder d))) ↔
  file_in p data (working_tree d).
Proof.
  destruct d as [es|]; [|done]. unfold prune_pass.
  case_bool_decide; [done|].
  rewrite walk_remove_Dir. cbv zeta.
  destruct (startswith folder ".git").
  { cbn [left_over]. by rewrite !file_in_working_tree, file_in_walk_below. }
  destruct (negb (truthy (dirs es)) && negb (truthy (nondirs es))) eqn:Hscan.
  { by apply scan_empty in Hscan as ->. }
  cbn [left_over]. by rewrite !file_in_working_tree, file_in_walk_below.
Qed.

Lemma file_in_after_passes k folder : ∀ d p data,
  file_in p data (working_tree (after_passes k folder d)) ↔
  file_in p data (working_tree d).
Proof.
  induction k as [|k IH]; intros d p data; [done|].
  simpl. by rewrite IH, file_in_prune_pass.
Qed.

(** ** Trees a pass leaves alone *)



Lemma walk_below_working_tree_removed root es :
  removed (walk_below root es) = false →
  removed (walk_below root (working_tree (Some es))) = false.
Proof.
  unfold working_tree. induction es as [|[name c] es IH]; [done|].
  simpl. intros [Hc Hes]%orb_false_iff.
  destruct (decide (name = git_dir_name)) as [->|Hname].
  - rewrite filter_cons_False by naive_solver. auto.
  - rewrite filter_cons_True by done. simpl. rewrite Hc. auto.
Qed.

Lemma prune_pass_settled folder d :
  removed (prune_pass folder d) = false → settled folder (working_tree d).
Proof.
  destruct d as [es|]; [|by right]. unfold prune_pass.
  case_bool_decide; [by left|]. intros Hr. right.
  apply walk_below_working_tree_removed.
  rewrite walk_remove_Dir in Hr. cbv zeta in Hr.
  destruct (startswith folder ".git"); [done|].
  by destruct (negb (truthy (dirs es)) && negb (truthy (nondirs es))).
Qed.



(** ** The refresh as a whole *)

Section refresh.
Context {T : Toolchain}.

(** When the refresh returns: origin had the branch, its tree was checked
    out over the folder, the files the status then listed were unlinked,
    and pruning passes ran until one found nothing to remove. *)
Lemma fetch_latest_return self branch w w' :
  _fetch_latest self branch w = Return tt w' →
  ∃ r refs b c d1 k,
    repository w = Some r ∧ branch = Some b ∧ refs !! b = Some c ∧
    git_checkout c (fetched refs r) (folder_disk w) = inr d1 ∧
    repository w' = Some (checked_out b c (fetched refs r)) ∧
    folder_disk w' =
      after_passes k (_folder self)
        ((λ es, foldl (λ acc p, remove_file p acc) es (git_untracked c d1))
           <$> d1) ∧
    removed (prune_pass (_folder self) (folder_disk w')) = false.
Proof.
  intros Hrun.
  destruct (repository w) as [r|] eqn:Hr.
  2:{ destruct (fetch_latest_no_origin self branch w) as [e He];
        congruence. }
  destruct (remotes r !! "origin") as [url|] eqn:Hu.
  2:{ destruct (fetch_latest_no_origin self branch w) as [e He];
        congruence. }
  rewrite (fetch_latest_eq self branch w r url Hr Hu) in Hrun.
  rewrite (fetch_stage_eq self "origin" w r url Hr Hu) in Hrun.
  cbv zeta in Hrun.
  assert (∀ refs w1,
    repository w1 = Some (fetched refs r) → folder_disk w1 = folder_disk w →
    clean_stage self branch w1 = Return tt w' →
    ∃ b c d1 k,
      branch = Some b ∧ refs !! b = Some c ∧
      git_checkout c (fetched refs r) (folder_disk w) = inr d1 ∧
      repository w' = Some (checked_out b c (fetched refs r)) ∧
      folder_disk w' =
        after_passes k (_folder self)
          ((λ es, foldl (λ acc p, remove_file p acc) es (git_untracked c d1))
             <$> d1) ∧
      removed (prune_pass (_folder self) (folder_disk w')) = false) as Hclean.
  { intros refs w1 Hr1 Hd1 Hc.
    pose proof (clean_stage_spec self branch w1) as Hs. rewrite Hc in Hs.
    destruct Hs as (_ & r' & b & c & d1 & k & Hr' & -> & Hrefs & Hco & Hrest).
    rewrite Hr1 in Hr'. injection Hr' as <-. rewrite Hd1 in Hco.
    by exists b, c, d1, k. }
  destruct (git_fetch (fetch_count w) url (_ssh_command self)) as [e|refs].
  - destruct (is_BadName e); [|done].
    destruct (git_fetch (S (fetch_count w)) url (_ssh_command self))
      as [e2|refs]; [done|].
    edestruct (Hclean refs) as (b & c & d1 & k & ?); [| |done|]; [done..|].
    by exists r, refs, b, c, d1, k.
  - edestruct (Hclean refs) as (b & c & d1 & k & ?); [| |done|]; [done..|].
    by exists r, refs, b, c, d1, k.
Qed.


Lemma file_in_unlinked d qs p data :
  file_in p data
    (working_tree ((λ es, foldl (λ acc q, remove_file q acc) es qs) <$> d)) ↔
  file_in p data (working_tree d) ∧ p ∉ qs.
Proof.
  destruct d as [es|]; cbn [fmap option_fmap option_map].
  - rewrite !file_in_working_tree, file_in_unlink_all. tauto.
  - split; [by intros ?%file_in_nil|by intros [?%file_in_nil _]].
Qed.

(** After a refresh the working tree holds the files of the branch at
    origin, which is what the index records, and no other file. *)
Lemma fetch_latest_tracked_only (laws : ToolchainLaws T) self branch w w' :
  _fetch_latest self branch w = Return tt w' →
  ∃ r' b,
    repository w' = Some r' ∧ branch = Some b ∧
    origin_refs r' !! b = Some (index r') ∧
    conforms (index r') (working_tree (folder_disk w')) ∧
    (∀ p data, file_in p data (working_tree (folder_disk w')) →
               tracked (index r') p) ∧
    settled (_folder self) (working_tree (folder_disk w')).
Proof.
  intros (r & refs & b & c & d1 & k & Hr & -> & Hc & Hco & Hr' & Hd & Hlast)
    %fetch_latest_return.
  eexists _, b. split_and!; [done..| | |by apply prune_pass_settled].
  - cbn [index checked_out]. intros p data Hin.
    rewrite Hd, file_in_after_passes, file_in_unlinked. split.
    + by eapply (checkout_conforms laws).
    + intros [_ Hp]%(untracked_sound laws). apply Hp. by exists data.
  - cbn [index checked_out]. intros p data.
    rewrite Hd, file_in_after_passes, file_in_unlinked. intros [Hin Hp].
    by destruct (untracked_complete laws c d1 p data Hin).
Qed.

End refresh.

(** ** The toolchain for running the module keeps the contract *)

Lemma files_in_cons e es :
  files_in (e :: es) =
    ((λ pd, (e.1 :: pd.1, pd.2)) <$> files_of e.2) ++ files_in es.
Proof. done. Qed.

Lemma elem_of_files_in es p data :
  (p, data) ∈ files_in es ↔
  ∃ name n p', (name, n) ∈ es ∧ p = name :: p' ∧ (p', data) ∈ files_of n.
Proof.
  induction es as [|[name0 n0] es IH].
  { split; [by intros ?%elem_of_nil|by intros (? & ? & ? & ?%elem_of_nil & _)]. }
  rewrite files_in_cons, elem_of_app, list_elem_of_fmap, IH. split.
  - intros [([p' d] & [= -> ->] & Hin)|(name & n & p' & Hin & -> & Hn)].
    + exists name0, n0, p'. split_and!; [by left|done..].
    + exists name, n, p'. split_and!; [by right|done..].
  - intros (name & n & p' & [[= -> ->]|Hin]%elem_of_cons & -> & Hn).
    + left. by exists (p', data).
    + right. eauto 10.
Qed.

Lemma files_of_file_in n : ∀ p data,
  (p, data) ∈ files_of n ↔
  match n with
  | File d => p = [] ∧ data = d
  | Dir es => file_in p data es
  end.
Proof.
  induction n as [d|es IH] using node_ind; intros p data.
  { simpl. rewrite list_elem_of_singleton. split; [by intros [= -> ->]|].
    by intros [-> ->]. }
  rewrite Forall_forall in IH.
  change (files_of (Dir es)) with (files_in es). rewrite elem_of_files_in.
  split.
  - intros (name & n & p' & Hin & -> & Hn).
    apply (IH _ Hin) in Hn. destruct n as [d|sub]; simpl in Hn.
    + by destruct Hn as [-> ->].
    + destruct p' as [|x p']; [by apply file_in_nonempty in Hn|].
      apply file_in_cons. eauto.
  - destruct p as [|name [|x p']].
    + done.
    + simpl. intros Hin. exists name, (File data), [].
      split_and!; [done..|]. by apply (IH _ Hin).
    + intros (sub & Hin & Hsub)%file_in_cons.
      exists name, (Dir sub), (x :: p'). split_and!; [done..|].
      by apply (IH _ Hin).
Qed.

Lemma elem_of_files_in_file_in es p data :
  (p, data) ∈ files_in es ↔ file_in p data es.
Proof. apply (files_of_file_in (Dir es)). Qed.

Lemma elem_of_files_in_tracked es p :
  p ∈ (files_in es).*1 ↔ tracked es p.
Proof.
  rewrite list_elem_of_fmap. unfold tracked. split.
  - intros ([p' data] & -> & Hin). exists data.
    by apply elem_of_files_in_file_in.
  - intros [data Hin]. exists (p, data). split; [done|].
    by apply elem_of_files_in_file_in.
Qed.

Lemma conforms_b_spec c es : conforms_b c es = true ↔ conforms c es.
Proof.
  unfold conforms_b, conforms. rewrite bool_decide_eq_true. split.
  - intros Hsub p data Hin. apply elem_of_files_in_file_in, Hsub.
    by apply elem_of_files_in_file_in.
  - intros Hc [p data] Hin. apply elem_of_files_in_file_in, Hc.
    by apply elem_of_files_in_file_in.
Qed.

Lemma valid_tree_Dir es :
  valid_tree (Dir es) = true ↔
  NoDup es.*1 ∧ Forall (λ e, valid_tree e.2 = true) es.
Proof.
  cbn [valid_tree]. rewrite andb_true_iff, bool_decide_eq_true.
  apply and_iff_compat_l. induction es as [|e es IH].
  { split; [by constructor|done]. }
  rewrite andb_true_iff, IH. split.
  - intros [? ?]. by constructor.
  - by intros [? ?]%Forall_cons.
Qed.

Lemma write_node_Dir name sub es :
  write_node name (Dir sub) es =
    filter (λ e, e.1 ≠ name) es ++
    [(name, Dir (write_tree sub (first_dir name es)))].
Proof.
  cbn [write_node]. do 3 f_equal. unfold write_tree.
  generalize (first_dir name es). induction sub as [|e sub IH]; intros acc;
    [done|]. simpl. by rewrite IH.
Qed.

(** Writing an entry keeps the entries of other names. *)
Lemma elem_of_write_node_ne name n es name' n' :
  name' ≠ name → (name', n') ∈ es → (name', n') ∈ write_node name n es.
Proof.
  intros Hne Hin.
  assert ((name', n') ∈ filter (λ e, e.1 ≠ name) es).
  { by apply list_elem_of_filter. }
  destruct n; [|rewrite write_node_Dir]; apply elem_of_app; by left.
Qed.

Lemma elem_of_write_tree_ne c : ∀ es name' n',
  name' ∉ c.*1 → (name', n') ∈ es → (name', n') ∈ write_tree c es.
Proof.
  induction c as [|[name n] c IH]; intros es name' n' Hnot Hin; [done|].
  apply not_elem_of_cons in Hnot as [Hne Hnot].
  unfold write_tree. simpl. apply IH; [done|].
  by apply elem_of_write_node_ne.
Qed.

(** After a committed tree was written over a directory, its files are
    there. *)
Lemma write_tree_files n : ∀ c,
  n = Dir c → valid_tree n = true →
  ∀ es, conforms c (write_tree c es).
Proof.
  induction n as [d|c0 IH] using node_ind; intros c Heq Hvalid; [done|].
  injection Heq as <-.
  apply valid_tree_Dir in Hvalid as [Hnodup Hvalid].
  rewrite Forall_forall in IH. rewrite Forall_forall in Hvalid.
  induction c0 as [|[name n] c IHc]; intros es p data Hin.
  { by apply file_in_nil in Hin. }
  apply NoDup_cons in Hnodup as [Hname Hnodup].
  assert (conforms c (write_tree c (write_node name n es))) as Hrest.
  { apply IHc; [|done|].
    - intros e He. apply IH. by right.
    - intros e He. apply Hvalid. by right. }
  change (write_tree ((name, n) :: c) es)
    with (write_tree c (write_node name n es)).
  destruct p as [|name' [|x p]].
  - done.
  - simpl in Hin. apply elem_of_cons in Hin as [[= -> <-]|Hin].
    + simpl. apply elem_of_write_tree_ne; [done|].
      apply elem_of_app. right. by left.
    + by apply (Hrest [name']).
  - apply file_in_cons in Hin as (sub & [[= -> <-]|Hin]%elem_of_cons & Hsub).
    + apply file_in_cons.
      exists (write_tree sub (first_dir name es)). split.
      * apply elem_of_write_tree_ne; [done|]. rewrite write_node_Dir.
        apply elem_of_app. right. by left.
      * eapply (IH (name, Dir sub)); [by left|done| |done].
        apply (Hvalid (name, Dir sub)). by left.
    + apply Hrest. apply file_in_cons. eauto.
Qed.

Lemma sim_laws script : ToolchainLaws (sim_toolchain script).
Proof.
  split; cbn [git_checkout git_untracked sim_toolchain].
  - intros c r [es|] d'; [|done]. unfold sim_checkout.
    destruct (valid_commit c) eqn:Hvalid; [|done].
    destruct (conforms_b c (working_tree (Some es))) eqn:Hc; intros [= <-].
    { by apply conforms_b_spec. }
    apply andb_true_iff in Hvalid as [Hvalid Hgit%bool_decide_eq_true].
    intros p data Hin. apply file_in_working_tree. split.
    + by apply (write_tree_files (Dir c)).
    + destruct p as [|name p]; [done|]. exists name, p. split; [done|].
      intros ->. apply Hgit. destruct p as [|x p].
      * simpl in Hin. apply list_elem_of_fmap. by eexists (_, _).
      * apply file_in_cons in Hin as (sub & Hin & _).
        apply list_elem_of_fmap. by eexists (_, _).
  - intros c r [es|] d' _ Hc; [|done]. unfold sim_checkout.
    destruct (valid_commit c); [|done].
    apply conforms_b_spec in Hc. rewrite Hc. by intros [= <-].
  - intros idx d p. unfold sim_untracked.
    rewrite list_elem_of_filter, elem_of_remove_dups.
    rewrite !elem_of_files_in_tracked. unfold tracked. tauto.
  - intros idx d p data Hin. unfold sim_untracked.
    rewrite list_elem_of_filter, elem_of_remove_dups.
    rewrite !elem_of_files_in_tracked.
    destruct (decide (p ∈ (files_in idx).*1)) as [Hp|Hp].
    + left. by apply elem_of_files_in_tracked.
    + right. split; [by rewrite elem_of_files_in_tracked in Hp|].
      by exists data.
Qed.

(** ** What the guard of the pruning does

    [os.walk] yields paths that start with the folder it was given, so the
    test [root.startswith(".git")] gives, at every directory, the answer it
    gives for the folder. *)
#[local] Arguments Ascii.eqb : simpl never.

Lemma startswith_join root name :
  root ≠ "" → startswith name "/" = false →
  startswith (os_path_join root name) ".git" = startswith root ".git".
Proof.
  intros Hroot Hname. unfold os_path_join. rewrite Hname.
  rewrite bool_decide_eq_false_2 by done. cbn [orb].
  destruct root as [|c1 [|c2 [|c3 [|c4 root]]]]; [done|..];
    simpl;
    repeat match goal with
           | |- context [Ascii.eqb ?a ?b] =>
               destruct (Ascii.eqb_spec a b); subst; simpl
           | |- context [if ?b then _ else _] => destruct b; simpl
           end; done.
Qed.

Lemma os_path_join_nonempty root name :
  root ≠ "" → startswith name "/" = false → os_path_join root name ≠ "".
Proof.
  intros Hroot Hname. unfold os_path_join. rewrite Hname.
  destruct root; [done|]. by destruct (_ || _).
Qed.

Lemma has_empty_dir_Dir e es :
  has_empty_dir (Dir (e :: es)) = has_empty_dir_in (e :: es).
Proof. done. Qed.

Lemma plain_names_Dir es :
  plain_names (Dir es) = true ↔
  Forall (λ e, startswith e.1 "/" = false ∧ plain_names e.2 = true) es.
Proof.
  cbn [plain_names]. induction es as [|e es IH]; [done|].
  rewrite !andb_true_iff, negb_true_iff, IH, Forall_cons. tauto.
Qed.

(** Under a folder whose path does not start with [.git], a pass that
    removes nothing has found no directory without entries, inside the
    metadata directory or outside. *)
Lemma walk_remove_nothing n : ∀ root,
  root ≠ "" → startswith root ".git" = false → plain_names n = true →
  removed (walk_remove root n) = false → has_empty_dir n = false.
Proof.
  induction n as [d|es IH] using node_ind; intros root Hroot Hgit Hnames Hr;
    [done|].
  rewrite walk_remove_Dir in Hr. cbv zeta in Hr. rewrite Hgit in Hr.
  destruct es as [|e es]; [done|].
  destruct (negb (truthy (dirs (e :: es))) && _) eqn:Hscan;
    [by apply scan_empty in Hscan|]. cbn [removed] in Hr.
  rewrite has_empty_dir_Dir. revert Hr. apply plain_names_Dir in Hnames.
  generalize (e :: es) IH Hnames. clear -Hroot Hgit.
  induction 1 as [|[name c] l Hc _ IHl]; intros Hnames; [done|].
  apply Forall_cons in Hnames as [[Hname Hcn] Hnames].
  pose proof (os_path_join_nonempty root name Hroot Hname) as Hjoin.
  pose proof (startswith_join root name Hroot Hname) as Hsame.
  rewrite Hgit in Hsame. simpl in *.
  intros [Hrc Hrl]%orb_false_iff. apply orb_false_iff. split; [|by apply IHl].
  by apply (Hc (os_path_join root name)).
Qed.

Lemma prune_pass_nothing folder es :
  folder ≠ "" → startswith folder ".git" = false →
  plain_names (Dir es) = true →
  removed (prune_pass folder (Some es)) = false →
  has_empty_dir (Dir es) = false.
Proof.
  intros Hf Hgit Hnames. unfold prune_pass.
  rewrite bool_decide_eq_false_2 by done. cbn [removed].
  by apply walk_remove_nothing.
Qed.


Lemma has_empty_dir_in_working_tree es :
  has_empty_dir_in es = false →
  has_empty_dir_in (working_tree (Some es)) = false.
Proof.
  unfold working_tree, has_empty_dir_in. induction es as [|e es IH]; [done|].
  simpl. intros [He Hes]%orb_false_iff.
  destruct (decide (e.1 ≠ git_dir_name)).
  - rewrite filter_cons_True by done. simpl. rewrite He. auto.
  - rewrite filter_cons_False by done. auto.
Qed.

(** When the refresh returns for a folder whose path does not start with
    [.git], and the toolchain keeps its contract, the working tree holds
    only files of the branch and no directory without entries. *)
Lemma refresh_clean_in_plain_folder {T : Toolchain} (laws : ToolchainLaws T)
    self branch w w' es :
  _fetch_latest self branch w = Return tt w' →
  _folder self ≠ "" → startswith (_folder self) ".git" = false →
  folder_disk w' = Some es → plain_names (Dir es) = true →
  (∃ r', repository w' = Some r' ∧
     ∀ p data, file_in p data (working_tree (folder_disk w')) →
               tracked (index r') p) ∧
  has_empty_dir_in (working_tree (folder_disk w')) = false.
Proof.
  intros Hrun Hfolder Hgit Hes Hnames. split.
  - destruct (fetch_latest_tracked_only laws _ _ _ _ Hrun)
      as (r' & b & Hr' & _ & _ & _ & Htracked & _).
    by exists r'.
  - destruct (fetch_latest_return _ _ _ _ Hrun)
      as (_ & _ & _ & _ & _ & _ & _ & _ & _ & _ & _ & _ & Hlast).
    rewrite Hes in Hlast |- *.
    apply has_empty_dir_in_working_tree.
    pose proof (prune_pass_nothing _ es Hfolder Hgit Hnames Hlast) as Hnone.
    destruct es; [done|]. by rewrite has_empty_dir_Dir in Hnone.
Qed.

(** ** The refresh at work *)

(** A left-over file and a directory that holds only an empty directory are
    both gone after a refresh, here one whose first fetch meets the garbage
    collector. *)
Example refresh_after_one_badname :
  ∃ w',
    _fetch_latest (T:=sim_toolchain fetch_badname_once) (plain_index "BaNaNaS")
      (Some "main") (ready_world mirror_folder) = Return tt w' ∧
    new_fetches (ready_world mirror_folder) w' = 2 ∧
    working_tree (folder_disk w') = main_tree ∧
    (EvUnlink "BaNaNaS/junk.txt" ∈ trace w' ∧
     EvRmdir "BaNaNaS/empty/sub" ∈ trace w' ∧
     EvRmdir "BaNaNaS/empty" ∈ trace w').
Proof.
  eexists. split; [vm_compute; reflexivity|].
  split_and!; [done..| | |]; cbn; repeat first [by left | right].
Qed.

(** ** The calls of a refresh, in order *)

(** With origin in place a refresh begins with a fetch from origin's URL
    under the SSH command of the index; a [BadName] is followed by a second
    such fetch; no other fetch is made. *)
Lemma fetch_latest_begins {T : Toolchain} self branch w r url :
  repository w = Some r → remotes r !! "origin" = Some url →
  let ssh := _ssh_command self in
  ∃ w' evs,
    outcome_world (_fetch_latest self branch w) = Some w' ∧
    trace w' = trace w ++ EvFetch url ssh :: evs ∧
    (git_fetch (fetch_count w) url ssh = inl BadName →
       ∃ evs', evs = EvFetch url ssh :: evs') ∧
    (∀ u env, EvFetch u env ∈ evs → u = url ∧ env = ssh).
Proof.
  intros Hr Hu. cbv zeta.
  rewrite (fetch_latest_eq self branch w r url Hr Hu).
  rewrite (fetch_stage_eq self "origin" w r url Hr Hu). cbv zeta.
  set (ssh := _ssh_command self).
  assert (∀ w1 evs1,
    trace w1 = trace w ++ EvFetch url ssh :: evs1 →
    (∀ u env, EvFetch u env ∈ evs1 → u = url ∧ env = ssh) →
    ∃ w' evs,
      outcome_world (clean_stage self branch w1) = Some w' ∧
      trace w' = trace w ++ EvFetch url ssh :: evs ∧
      (∃ evs2, evs = evs1 ++ evs2) ∧
      ∀ u env, EvFetch u env ∈ evs → u = url ∧ env = ssh) as Hclean.
  { intros w1 evs1 Ht1 Hall1.
    pose proof (clean_stage_spec self branch w1) as Hs.
    assert (∀ w', only_calls (local_call branch) w1 w' →
      ∃ evs,
        trace w' = trace w ++ EvFetch url ssh :: evs ∧
        (∃ evs2, evs = evs1 ++ evs2) ∧
        ∀ u env, EvFetch u env ∈ evs → u = url ∧ env = ssh) as Hlocal.
    { intros w' [_ _ _ _ (evs & Ht & Hall)]. exists (evs1 ++ evs).
      rewrite Ht, Ht1, <-(assoc_L (++)). split_and!; [done|by eexists|].
      intros u env [Hin|Hin]%elem_of_app; [by eapply Hall1|].
      by apply (proj1 (Forall_forall _ _) Hall) in Hin. }
    destruct (clean_stage self branch w1) as [[] w'|e w'|]; [| |done].
    - destruct Hs as [Hs _]. destruct (Hlocal w' Hs) as (evs & ? & ? & ?).
      by exists w', evs.
    - destruct (Hlocal w' Hs) as (evs & ? & ? & ?). by exists w', evs. }
  destruct (git_fetch (fetch_count w) url ssh) as [e|refs] eqn:Hf1.
  - destruct (is_BadName e) eqn:He.
    + destruct (git_fetch (S (fetch_count w)) url ssh) as [e2|refs].
      * eexists _, [EvFetch url ssh].
        split_and!; [done|cbn; by rewrite <-(assoc_L (++))|by eexists|].
        by intros u env [= -> ->]%list_elem_of_singleton.
      * destruct (Hclean
          (set_environment (git_environment w)
             (set_repository (Some (fetched refs r))
                (attempt url (attempt url (set_environment ssh w)))))
          [EvFetch url ssh]) as (w' & evs & Hw' & Ht & [evs2 ->] & Hall).
        -- cbn. by rewrite <-(assoc_L (++)).
        -- by intros u env [= -> ->]%list_elem_of_singleton.
        -- exists w', ([EvFetch url ssh] ++ evs2).
           split_and!; [done..|by eexists|done].
    + eexists _, []. split_and!; [done..| |by intros u env ?%elem_of_nil].
      intros [= ->]. done.
  - destruct (Hclean
      (set_environment (git_environment w)
         (set_repository (Some (fetched refs r))
            (attempt url (set_environment ssh w)))) [])
      as (w' & evs & Hw' & Ht & _ & Hall);
      [done|by intros u env ?%elem_of_nil|].
    exists w', evs. split_and!; [done..| |done]. by intros [=].
Qed.

(** Whatever follows it, the checkout of a branch that origin has is
    attempted, and when it goes through the repository is on that branch
    from then on. *)
Lemma clean_stage_checkout {T : Toolchain} self b w r c :
  repository w = Some r → origin_refs r !! b = Some c →
  ∃ w' evs,
    outcome_world (clean_stage self (Some b) w) = Some w' ∧
    trace w' = trace w ++ EvCheckout b :: evs ∧
    (∀ u env, EvFetch u env ∉ evs) ∧
    (∀ d1, git_checkout c r (folder_disk w) = inr d1 →
           repository w' = Some (checked_out b c r)).
Proof.
  intros Hr Hc.
  destruct (git_checkout c r (folder_disk w)) as [e|d1] eqn:Hco.
  { exists (log (EvCheckout b) w), [].
    split_and!; [|done|by intros u env ?%elem_of_nil|done].
    unfold clean_stage, origin_refs_getitem, ref_checkout, the_repo. run.
    rewrite Hr. cbn. rewrite Hc. cbn. rewrite Hr. cbn. by rewrite Hco. }
  rewrite (clean_stage_eq self b w r c d1 Hr Hc Hco).
  set (w1 := set_disk d1 (set_repository (Some (checked_out b c r))
                            (log (EvCheckout b) w))).
  unfold bind at 1.
  pose proof (for_each_unlink_ends (_folder self) (git_untracked c d1) w1)
    as Hends.
  destruct (for_each (git_untracked c d1) (os_unlink (_folder self)) w1)
    as [[] w2|e w2|] eqn:Hloop; [| |done].
  - destruct (for_each_unlink_calls (Some b) (_folder self)
                 (git_untracked c d1) w1 w2)
      as [[_ _ _ _ (evs2 & Ht2 & Hall2)] Hr2]; [by rewrite Hloop|].
    unfold bind, get_world.
    destruct (while_pass_prune self (_folder self)
                (S (count_dirs_disk (folder_disk w2))) w2)
      as (k & w3 & -> & _ & _ & _ & _ & Hr3 & Hcalls); [lia|].
    destruct (Hcalls (Some b)) as [_ _ _ _ (evs3 & Ht3 & Hall3)].
    exists w3, (evs2 ++ evs3). split_and!; [done| | |].
    + rewrite Ht3, Ht2. cbn. by rewrite <-!(assoc_L (++)).
    + intros u env [Hin|Hin]%elem_of_app.
      * by apply (proj1 (Forall_forall _ _) Hall2) in Hin.
      * by apply (proj1 (Forall_forall _ _) Hall3) in Hin.
    + intros d [= <-]. by rewrite Hr3, Hr2.
  - destruct (for_each_unlink_calls (Some b) (_folder self)
                 (git_untracked c d1) w1 w2)
      as [[_ _ _ _ (evs2 & Ht2 & Hall2)] Hr2]; [by rewrite Hloop|].
    exists w2, evs2. split_and!; [done| | |].
    + rewrite Ht2. cbn. by rewrite <-!(assoc_L (++)).
    + intros u env Hin.
      by apply (proj1 (Forall_forall _ _) Hall2) in Hin.
    + intros d [= <-]. by rewrite Hr2.
Qed.

(** A refresh whose fetch brings the branch goes on to check it out. *)
Lemma fetch_latest_checks_out {T : Toolchain} self b w r url refs c :
  repository w = Some r → remotes r !! "origin" = Some url →
  let n := fetch_count w in
  let ssh := _ssh_command self in
  git_fetch n url ssh = inr refs ∨
  (git_fetch n url ssh = inl BadName ∧ git_fetch (S n) url ssh = inr refs) →
  refs !! b = Some c →
  ∃ w' evs1 evs2,
    outcome_world (_fetch_latest self (Some b) w) = Some w' ∧
    trace w' = trace w ++ evs1 ++ EvCheckout b :: evs2 ∧
    (evs1 = [EvFetch url ssh] ∨ evs1 = [EvFetch url ssh; EvFetch url ssh]) ∧
    (∀ u env, EvFetch u env ∉ evs2) ∧
    (∀ d1, git_checkout c (fetched refs r) (folder_disk w) = inr d1 →
           repository w' = Some (checked_out b c (fetched refs r))).
Proof.
  intros Hr Hu. cbv zeta. intros Hfetch Hc.
  rewrite (fetch_latest_eq self (Some b) w r url Hr Hu).
  rewrite (fetch_stage_eq self "origin" w r url Hr Hu). cbv zeta.
  destruct Hfetch as [->|[-> ->]]; cbn [is_BadName].
  - edestruct (clean_stage_checkout self b
      (set_environment (git_environment w)
         (set_repository (Some (fetched refs r))
            (attempt url (set_environment (_ssh_command self) w))))
      (fetched refs r) c) as (w' & evs & Hw' & Ht & Hno & Hco); [done..|].
    exists w', [EvFetch url (_ssh_command self)], evs.
    split_and!; [done| |by left|done|done].
    rewrite Ht. cbn. by rewrite <-!(assoc_L (++)).
  - edestruct (clean_stage_checkout self b
      (set_environment (git_environment w)
         (set_repository (Some (fetched refs r))
            (attempt url (attempt url
               (set_environment (_ssh_command self) w)))))
      (fetched refs r) c) as (w' & evs & Hw' & Ht & Hno & Hco); [done..|].
    exists w', [EvFetch url (_ssh_command self);
                EvFetch url (_ssh_command self)], evs.
    split_and!; [done| |by right|done|done].
    rewrite Ht. cbn. by rewrite <-!(assoc_L (++)).
Qed.

(** A refresh that returns had an origin to fetch from, and its fetch, the
    first or the retry, brought the branch. *)
Lemma fetch_latest_return_origin {T : Toolchain} self branch w w' :
  _fetch_latest self branch w = Return tt w' →
  let n := fetch_count w in
  let ssh := _ssh_command self in
  ∃ r url refs b c,
    repository w = Some r ∧ remotes r !! "origin" = Some url ∧
    branch = Some b ∧
    (git_fetch n url ssh = inr refs ∨
     (git_fetch n url ssh = inl BadName ∧
      git_fetch (S n) url ssh = inr refs)) ∧
    refs !! b = Some c ∧
    repository w' = Some (checked_out b c (fetched refs r)).
Proof.
  intros Hrun. cbv zeta.
  destruct (repository w) as [r|] eqn:Hr.
  2:{ destruct (fetch_latest_no_origin self branch w) as [e He];
        congruence. }
  destruct (remotes r !! "origin") as [url|] eqn:Hu.
  2:{ destruct (fetch_latest_no_origin self branch w) as [e He];
        congruence. }
  rewrite (fetch_latest_eq self branch w r url Hr Hu) in Hrun.
  rewrite (fetch_stage_eq self "origin" w r url Hr Hu) in Hrun.
  cbv zeta in Hrun.
  assert (∀ refs w1,
    repository w1 = Some (fetched refs r) →
    clean_stage self branch w1 = Return tt w' →
    ∃ b c, branch = Some b ∧ refs !! b = Some c ∧
           repository w' = Some (checked_out b c (fetched refs r)))
    as Hclean.
  { intros refs w1 Hr1 Hc.
    pose proof (clean_stage_spec self branch w1) as Hs. rewrite Hc in Hs.
    destruct Hs as (_ & r1 & b & c & d1 & k & Hr' & -> & Hrefs & _ & Hrw' & _).
    rewrite Hr1 in Hr'. injection Hr' as <-. by exists b, c. }
  destruct (git_fetch (fetch_count w) url (_ssh_command self))
    as [e|refs] eqn:Hf1.
  - destruct (is_BadName e) eqn:He; [|done].
    assert (e = BadName) as -> by by destruct e.
    destruct (git_fetch (S (fetch_count w)) url (_ssh_command self))
      as [e2|refs] eqn:Hf2; [done|].
    edestruct (Hclean refs) as (b & c & ? & ? & ?); [|exact Hrun|]; [done|].
    exists r, url, refs, b, c. split_and!; [done..|by right|done|done].
  - edestruct (Hclean refs) as (b & c & ? & ? & ?); [|exact Hrun|]; [done|].
    exists r, url, refs, b, c. split_and!; [done..|by left|done|done].
Qed.

(** ** The simulated git with an ignore rule

    It lists fewer files than the one without: what it lists is in the
    working tree and not in the index, as before, while a file the rule
    hides is in neither list. *)
Lemma sim_untracked_ignoring_sound idx d p :
  p ∈ sim_untracked_ignoring idx d →
  (∃ data, file_in p data (working_tree d)) ∧ ¬ tracked idx p.
Proof.
  intros Hin. apply (untracked_sound (sim_laws fetch_ok) idx d p).
  unfold sim_untracked_ignoring in Hin. cbn.
  destruct (file_content ignore_file_name (working_tree d)); [|done].
  by apply list_elem_of_filter in Hin as [_ Hin].
Qed.

(** * The claims *)

(** C1, against the code. The guard of [_remove_empty_folders] tests the
    path that [os.walk] yields, which starts with the folder that was
    walked: below any folder the guard answers what it answers for the
    folder itself. For the folder [BaNaNaS] it never holds, and a pass over
    the mirror removes the directories without entries inside [.git] like
    any other. *)
Theorem pruning_removes_metadata_directories :
  (∀ folder name,
     folder ≠ "" → startswith name "/" = false →
     startswith (os_path_join folder name) ".git" =
       startswith folder ".git") ∧
  startswith "BaNaNaS/.git/refs/tags" ".git" = false ∧
  _remove_empty_folders (plain_index "BaNaNaS") "BaNaNaS"
    (ready_world mirror_after_checkout) =
  Return true
    (log_all [EvRmdir "BaNaNaS/.git/objects/info";
              EvRmdir "BaNaNaS/.git/refs/tags";
              EvRmdir "BaNaNaS/empty/sub"]
       (set_disk
          (Some [(".git",
                  Dir [("HEAD", File "ref: refs/heads/main");
                       ("config", File "[core]");
                       ("objects",
                        Dir [("pack", Dir [("pack-1.pack", File "PACK")])]);
                       ("refs",
                        Dir [("heads", Dir [("main", File "41444d4c")]);
                             ("remotes",
                              Dir [("origin",
                                    Dir [("main", File "41444d4c")])])])]);
                 ("README.md", File "BaNaNaS");
                 ("empty", Dir [])])
          (ready_world mirror_after_checkout))).
Proof.
  split; [apply startswith_join|]. split; vm_compute; reflexivity.
Qed.

(** C2. If the first fetch of a refresh raises [BadName], exactly one more
    fetch is made, and when that one fails too, with whatever exception, the
    refresh raises that exception; a first failure of any other kind is not
    retried and is what the refresh raises; a first fetch that succeeds is
    the only one. *)
Theorem fetch_retry_policy {T : Toolchain} self branch w r url :
  repository w = Some r → remotes r !! "origin" = Some url →
  let n := fetch_count w in
  let ssh := _ssh_command self in
  let refresh := _fetch_latest self branch w in
  (git_fetch n url ssh = inl BadName →
     (∀ e, git_fetch (S n) url ssh = inl e →
        ∃ w', refresh = Raise e w' ∧ new_fetches w w' = 2 ∧
              trace w' = trace w ++ [EvFetch url ssh; EvFetch url ssh]) ∧
     (∀ w', outcome_world refresh = Some w' → new_fetches w w' = 2)) ∧
  (∀ e, git_fetch n url ssh = inl e → e ≠ BadName →
     ∃ w', refresh = Raise e w' ∧ new_fetches w w' = 1 ∧
           trace w' = trace w ++ [EvFetch url ssh]) ∧
  (∀ refs, git_fetch n url ssh = inr refs →
     ∀ w', outcome_world refresh = Some w' → new_fetches w w' = 1).
Proof.
  intros Hr Hu. cbv zeta.
  rewrite (fetch_latest_eq self branch w r url Hr Hu).
  rewrite (fetch_stage_eq self "origin" w r url Hr Hu). cbv zeta.
  assert (∀ w1 w',
            outcome_world (clean_stage self branch w1) = Some w' →
            fetch_count w' = fetch_count w1) as Hclean.
  { intros w1 w' Hw'. pose proof (clean_stage_spec self branch w1) as Hs.
    destruct (clean_stage self branch w1); simplify_eq/=;
      [by destruct Hs as [[] _]|by destruct Hs]. }
  unfold new_fetches. split_and!.
  - intros ->. cbn [is_BadName]. split.
    + intros e ->. eexists. split; [done|]. cbn. split; [lia|].
      by rewrite <-(assoc_L (++)).
    + intros w'. destruct (git_fetch (S (fetch_count w)) url (_ssh_command self)).
      * intros [= <-]. cbn. lia.
      * intros Hw'. rewrite (Hclean _ _ Hw'). cbn. lia.
  - intros e -> He. destruct e; [done|..];
      (eexists; split; [done|]; cbn; split; [lia|done]).
  - intros refs -> w' Hw'. rewrite (Hclean _ _ Hw'). cbn. lia.
Qed.

(** C2, at work: after a [BadName] the fetch is made once more and the
    second [BadName] is what the refresh raises; another failure is raised
    after one fetch. *)
Lemma fetch_retry_policy_witness :
  (∃ w', _fetch_latest (T:=sim_toolchain fetch_badname_twice)
           (plain_index "BaNaNaS") (Some "main") (ready_world mirror_folder)
         = Raise BadName w' ∧
         new_fetches (ready_world mirror_folder) w' = 2) ∧
  (∃ w', _fetch_latest (T:=sim_toolchain fetch_refused)
           (plain_index "BaNaNaS") (Some "main") (ready_world mirror_folder)
         = Raise (OtherError "GitCommandError") w' ∧
         new_fetches (ready_world mirror_folder) w' = 1).
Proof.
  split.
  - destruct (fetch_retry_policy (T:=sim_toolchain fetch_badname_twice)
                (plain_index "BaNaNaS") (Some "main")
                (ready_world mirror_folder) _ _ eq_refl eq_refl)
      as [Hbad _].
    destruct (Hbad eq_refl) as [Hagain _].
    destruct (Hagain BadName eq_refl) as (w' & Hrun & Hn & _).
    by exists w'.
  - destruct (fetch_retry_policy (T:=sim_toolchain fetch_refused)
                (plain_index "BaNaNaS") (Some "main")
                (ready_world mirror_folder) _ _ eq_refl eq_refl)
      as (_ & Hother & _).
    destruct (Hother (OtherError "GitCommandError") eq_refl)
      as (w' & Hrun & Hn & _); [done|].
    by exists w'.
Defined.

(** C3, against the code. For a folder whose path starts with [.git] the
    guard of [_remove_empty_folders] holds at every directory, nothing is
    pruned, and the refresh returns with the empty directories still in the
    working tree. *)
Theorem refresh_keeps_empty_directories :
  ∃ w',
    _fetch_latest (T:=sim_toolchain fetch_ok) (plain_index ".gitmirror")
      (Some "main") (ready_world mirror_folder) = Return tt w' ∧
    ("empty", Dir [("sub", Dir [])]) ∈ working_tree (folder_disk w') ∧
    has_empty_dir_in (working_tree (folder_disk w')) = true.
Proof.
  eexists. split; [vm_compute; reflexivity|].
  split; [|vm_compute; reflexivity].
  cbn. repeat first [by left | right].
Qed.




(** C5. For a configured URL the constructor returns whenever it finds a
    repository at the folder or [git init] makes one, and only then. When
    it returns the repository has a remote called origin whose URL is the
    configured one: it was created if there was none, set to the URL if it
    pointed elsewhere, and the other remotes are what they were. No fetch
    was made meanwhile, and the first fetch of any refresh that follows
    goes to the configured URL. *)
Theorem origin_set_before_fetch {T : Toolchain} {application result : Type}
    {L : LocalIndex application result} w url :
  _github_url (module_globals w) = Some url →
  (∀ self w', Index__init__ w = Return self w' →
     ∃ es r, opened w = inr (es, r)) ∧
  ∀ es r, opened w = inr (es, r) →
    ∃ self w' r' evs,
      Index__init__ w = Return self w' ∧
      repository w' = Some r' ∧
      remotes r' !! "origin" = Some url ∧
      (∀ name, name ≠ "origin" → remotes r' !! name = remotes r !! name) ∧
      trace w' = trace w ++ evs ∧
      (remotes r !! "origin" = None → EvCreateRemote "origin" url ∈ evs) ∧
      (∀ old, remotes r !! "origin" = Some old → old ≠ url →
              EvSetUrl "origin" url ∈ evs) ∧
      (∀ u env, EvFetch u env ∉ evs) ∧
      fetch_count w' = fetch_count w ∧
      ∀ branch, ∃ w'' evs',
        outcome_world (_fetch_latest self branch w') = Some w'' ∧
        trace w'' = trace w' ++ EvFetch url (_ssh_command self) :: evs' ∧
        ∀ u env, EvFetch u env ∈ evs' → u = url.
Proof.
  intros Hu.
  pose proof (init_spec w url Hu) as Hspec. cbv zeta in Hspec. split.
  { intros self w' Hinit. destruct (opened w) as [e|[es r]]; [|by eexists _, _].
    destruct Hspec as (? & ? & _). congruence. }
  intros es r Hop. rewrite Hop in Hspec.
  destruct Hspec as (w1 & Hrun & Hd & Hr & Hg & Hc & Hf & Ht).
  eexists _, w1, _, _. split_and!; [exact Hrun|exact Hr| | |exact Ht| | | |done|].
  - cbn. apply lookup_insert_eq.
  - intros name Hn. cbn. by apply lookup_insert_ne.
  - intros Ho. unfold origin_events. rewrite Ho.
    rewrite !elem_of_app, list_elem_of_singleton. auto.
  - intros old Ho Hne. unfold origin_events. rewrite Ho.
    rewrite bool_decide_eq_false_2 by done.
    rewrite !elem_of_app, list_elem_of_singleton. auto.
  - intros u env. unfold key_events, open_events, origin_events.
    destruct (_github_private_key _) as [k|]; [destruct (truthy k)|];
      destruct (folder_disk w), (repository w);
      (destruct (remotes r !! "origin"); [case_bool_decide|]);
      intros Hin; decompose_list_elem_of; done.
  - intros branch.
    edestruct (fetch_latest_begins (T:=T)) as (w2 & evs & Hw2 & Ht2 & _ & Hall);
      [exact Hr|cbn; apply lookup_insert_eq|].
    exists w2, evs. split_and!; [exact Hw2|exact Ht2|].
    intros u env Hin. by apply Hall in Hin as [-> _].
Qed.

(** C5, at work: a repository that has no origin gets one, and an origin
    that points elsewhere is set to the configured URL; in both runs the
    other remote stays. *)
Lemma origin_set_before_fetch_witness :
  (∃ self w' r' evs,
     Index__init__ (T:=sim_toolchain fetch_ok) (L:=sim_local "BaNaNaS")
       world_without_origin = Return self w' ∧
     repository w' = Some r' ∧
     remotes r' !! "origin" = Some "https://github.com/OpenTTD/BaNaNaS" ∧
     remotes r' !! "backup" = Some "https://example.org/backup" ∧
     trace w' = trace world_without_origin ++ evs ∧
     EvCreateRemote "origin" "https://github.com/OpenTTD/BaNaNaS" ∈ evs ∧
     fetch_count w' = 0) ∧
  (∃ self w' r' evs,
     Index__init__ (T:=sim_toolchain fetch_ok) (L:=sim_local "BaNaNaS")
       world_with_old_origin = Return self w' ∧
     repository w' = Some r' ∧
     remotes r' !! "origin" = Some "https://github.com/OpenTTD/BaNaNaS" ∧
     remotes r' !! "backup" = Some "https://example.org/backup" ∧
     trace w' = trace world_with_old_origin ++ evs ∧
     EvSetUrl "origin" "https://github.com/OpenTTD/BaNaNaS" ∈ evs ∧
     fetch_count w' = 0).
Proof.
  split.
  - destruct (proj2 (origin_set_before_fetch (T:=sim_toolchain fetch_ok)
                       (L:=sim_local "BaNaNaS") world_without_origin
                       "https://github.com/OpenTTD/BaNaNaS" eq_refl)
                mirror_folder
                (Repo_ {["backup" := "https://example.org/backup"]}
                       ∅ ∅ None []) eq_refl)
      as (self & w' & r' & evs & Hrun & Hr & Ho & Hother & Ht & Hnew & _ & _
          & Hc & _).
    exists self, w', r', evs.
    split_and!; [exact Hrun|exact Hr|exact Ho| |exact Ht| |exact Hc].
    + by rewrite Hother.
    + by apply Hnew.
  - destruct (proj2 (origin_set_before_fetch (T:=sim_toolchain fetch_ok)
                       (L:=sim_local "BaNaNaS") world_with_old_origin
                       "https://github.com/OpenTTD/BaNaNaS" eq_refl)
                mirror_folder
                (Repo_ {["origin" := "https://example.org/old";
                         "backup" := "https://example.org/backup"]}
                       ∅ ∅ None []) eq_refl)
      as (self & w' & r' & evs & Hrun & Hr & Ho & Hother & Ht & _ & Hset & _
          & Hc & _).
    exists self, w', r', evs.
    split_and!; [exact Hrun|exact Hr|exact Ho| |exact Ht| |exact Hc].
    + by rewrite Hother.
    + by apply (Hset "https://example.org/old").
Defined.

(** C6. Without a repository at the folder, [git.Repo] raises
    [NoSuchPathError] when the path is missing and
    [InvalidGitRepositoryError] when it is there; the constructor goes on
    in the same way in both cases: it has [git init] make the repository,
    gives the new repository its origin, and returns. *)
Theorem open_or_init {T : Toolchain} {application result : Type}
    {L : LocalIndex application result} w :
  repository w = None →
  (folder_disk w = None →
     Repo local_folder w =
       Raise NoSuchPathError (log (EvRepoOpen local_folder) w)) ∧
  (is_Some (folder_disk w) →
     Repo local_folder w =
       Raise InvalidGitRepositoryError (log (EvRepoOpen local_folder) w)) ∧
  ∀ url es,
    _github_url (module_globals w) = Some url →
    git_init (folder_disk w) = inr es →
    ∃ self w',
      Index__init__ w = Return self w' ∧
      folder_disk w' = Some es ∧
      repository w' = Some (with_origin url fresh_repo) ∧
      trace w' = trace w ++
        key_events (_github_private_key (module_globals w))
                   (tempfile_name (tempfiles w)) ++
        [EvRepoOpen local_folder; EvRepoInit local_folder;
         EvCreateRemote "origin" url].
Proof.
  intros Hr. split_and!.
  - intros Hd. unfold Repo. by rewrite Hd.
  - intros [es Hd]. unfold Repo. by rewrite Hd, Hr.
  - intros url es Hu Hinit.
    pose proof (init_spec w url Hu) as Hspec. cbv zeta in Hspec.
    assert (opened w = inr (es, fresh_repo)) as Hop.
    { unfold opened. rewrite Hr. revert Hinit.
      by destruct (folder_disk w); intros ->. }
    assert (open_events local_folder w =
              [EvRepoOpen local_folder; EvRepoInit local_folder]) as Hev.
    { unfold open_events. rewrite Hr. by destruct (folder_disk w). }
    rewrite Hop, Hev in Hspec.
    destruct Hspec as (w' & Hrun & Hd & Hr' & _ & _ & _ & Ht).
    eexists _, w'. split_and!; [done..|].
    rewrite Ht. unfold origin_events. cbn. rewrite lookup_empty.
    by rewrite <-!(assoc_L (++)).
Qed.

(** C6, at work: the missing folder and the folder that is no repository
    both end as a repository with origin in place. *)
Lemma open_or_init_witness :
  (∃ self w',
     Index__init__ (T:=sim_toolchain fetch_ok) (L:=sim_local "BaNaNaS")
       world_without_folder = Return self w' ∧
     repository w' =
       Some (with_origin "https://github.com/OpenTTD/BaNaNaS" fresh_repo)) ∧
  (∃ self w',
     Index__init__ (T:=sim_toolchain fetch_ok) (L:=sim_local "BaNaNaS")
       world_with_plain_folder = Return self w' ∧
     repository w' =
       Some (with_origin "https://github.com/OpenTTD/BaNaNaS" fresh_repo)).
Proof.
  split.
  - destruct (open_or_init (T:=sim_toolchain fetch_ok)
                (L:=sim_local "BaNaNaS") world_without_folder eq_refl)
      as (_ & _ & Hinit).
    destruct (Hinit "https://github.com/OpenTTD/BaNaNaS" _ eq_refl eq_refl)
      as (self & w' & Hrun & _ & Hr & _).
    by exists self, w'.
  - destruct (open_or_init (T:=sim_toolchain fetch_ok)
                (L:=sim_local "BaNaNaS") world_with_plain_folder eq_refl)
      as (_ & _ & Hinit).
    destruct (Hinit "https://github.com/OpenTTD/BaNaNaS" _ eq_refl eq_refl)
      as (self & w' & Hrun & _ & Hr & _).
    by exists self, w'.
Defined.

(** C7, as amended. The constructor tests the key for truth, so an empty
    key counts as none. The index the constructor returns carries no SSH
    command and no key file when the module state holds no key or an empty
    one; when it holds a non-empty key the command is [ssh -i] with the name
    of the temporary file, and that file holds the key. A refresh with that
    index over a repository that has its origin begins with a fetch under
    exactly that setting, the retry after a [BadName] runs under it too, and
    no fetch of any refresh runs under another. The repository the
    constructor leaves has its origin. *)
Theorem ssh_override_follows_key {T : Toolchain} {application result : Type}
    {L : LocalIndex application result} w0 url self w1 :
  _github_url (module_globals w0) = Some url →
  Index__init__ w0 = Return self w1 →
  let key := _github_private_key (module_globals w0) in
  let name := tempfile_name (tempfiles w0) in
  (key = None ∨ key = Some [] →
     _ssh_command self = None ∧ _github_private_key_file self = None) ∧
  (∀ k, key = Some k → k ≠ [] →
     _ssh_command self = Some ("ssh -i " +:+ name) ∧
     _github_private_key_file self = Some name ∧
     tempfiles w1 !! name = Some k) ∧
  (∃ r1, repository w1 = Some r1 ∧ remotes r1 !! "origin" = Some url) ∧
  (∀ branch w r u,
     repository w = Some r → remotes r !! "origin" = Some u →
     ∃ w' evs,
       outcome_world (_fetch_latest self branch w) = Some w' ∧
       trace w' = trace w ++ EvFetch u (_ssh_command self) :: evs ∧
       (git_fetch (fetch_count w) u (_ssh_command self) = inl BadName →
          ∃ evs', evs = EvFetch u (_ssh_command self) :: evs') ∧
       (∀ u' env, EvFetch u' env ∈ evs → env = _ssh_command self)) ∧
  (∀ branch w,
     ∃ w' evs,
       outcome_world (_fetch_latest self branch w) = Some w' ∧
       trace w' = trace w ++ evs ∧
       ∀ u env, EvFetch u env ∈ evs → env = _ssh_command self).
Proof.
  intros Hu Hinit. cbv zeta.
  pose proof (init_spec w0 url Hu) as Hspec. cbv zeta in Hspec.
  destruct (opened w0) as [e|[es r]].
  { destruct Hspec as (? & ? & _). congruence. }
  destruct Hspec as (w' & Hrun & _ & Hr' & _ & _ & Hf & _).
  rewrite Hinit in Hrun. injection Hrun as -> <-. split_and!.
  - by intros [->| ->].
  - intros k Hk Hne. cbn. unfold ssh_command_for, key_file_for.
    assert (truthy k = true) as Htr by by destruct k.
    rewrite Hk, Htr. split_and!; [done..|]. by apply Hf.
  - eexists. split; [exact Hr'|]. cbn. apply lookup_insert_eq.
  - intros branch w r0 u Hr0 Hu0.
    destruct (fetch_latest_begins
                (Index_ local_folder
                   (key_file_for (_github_private_key (module_globals w0))
                      (tempfile_name (tempfiles w0)))
                   (ssh_command_for (_github_private_key (module_globals w0))
                      (tempfile_name (tempfiles w0))))
                branch w r0 u Hr0 Hu0)
      as (w2 & evs & Hw2 & Ht2 & Hretry & Hall).
    exists w2, evs. split_and!; [exact Hw2|exact Ht2|exact Hretry|].
    intros u' env Hin. by apply Hall in Hin as [_ ->].
  - intros branch w.
    destruct (fetch_latest_calls
                (Index_ local_folder
                   (key_file_for (_github_private_key (module_globals w0))
                      (tempfile_name (tempfiles w0)))
                   (ssh_command_for (_github_private_key (module_globals w0))
                      (tempfile_name (tempfiles w0))))
                branch w) as (w2 & Hw2 & _ & _ & evs & Ht & Hall).
    exists w2, evs. split_and!; [done..|].
    intros u env Hin. rewrite Forall_forall in Hall. by apply Hall in Hin.
Qed.

(** C7, at work: with the key [abc] the index gets [ssh -i] with the key
    file, and the two fetches of a refresh that meets the garbage collector
    run under it. *)
Lemma ssh_override_follows_key_witness :
  ∃ self w1,
    Index__init__ (T:=sim_toolchain fetch_badname_once)
      (L:=sim_local "BaNaNaS") world_with_key_stored = Return self w1 ∧
    _ssh_command self = Some "ssh -i /tmp/tmp0" ∧
    tempfiles w1 !! "/tmp/tmp0" = Some [x61; x62; x63] ∧
    ∃ w' evs,
      outcome_world (_fetch_latest (T:=sim_toolchain fetch_badname_once)
                       self (Some "main") w1) = Some w' ∧
      trace w' =
        trace w1 ++
        EvFetch "https://github.com/OpenTTD/BaNaNaS" (Some "ssh -i /tmp/tmp0")
        :: EvFetch "https://github.com/OpenTTD/BaNaNaS"
             (Some "ssh -i /tmp/tmp0") :: evs ∧
      ∀ u env, EvFetch u env ∈ evs → env = Some "ssh -i /tmp/tmp0".
Proof.
  eexists _, _. split; [vm_compute; reflexivity|].
  lazymatch goal with
  | |- _ ∧ tempfiles ?w1 !! _ = _ ∧ _ =>
      destruct (ssh_override_follows_key (T:=sim_toolchain fetch_badname_once)
                  (L:=sim_local "BaNaNaS") world_with_key_stored
                  "https://github.com/OpenTTD/BaNaNaS"
                  (Index_ "BaNaNaS" (Some "/tmp/tmp0")
                     (Some "ssh -i /tmp/tmp0")) w1)
        as (_ & Hkey & _ & Hfetch & _);
        [reflexivity|vm_compute; reflexivity|];
      destruct (Hkey [x61; x62; x63] eq_refl) as (Hssh & _ & Hfile); [done|];
      edestruct (Hfetch (Some "main") w1)
        as (w' & evs & Hw' & Ht & Hretry & Hall);
        [reflexivity|vm_compute; reflexivity|]
  end.
  destruct Hretry as [evs' ->]; [reflexivity|].
  split_and!; [exact Hssh|exact Hfile|].
  exists w', evs'. split_and!; [exact Hw'|exact Ht|].
  intros u env Hin. apply (Hall u env). by right.
Defined.

(** C7, as stated, fails for an empty key: the module state holds a key, the
    empty one that [b64decode] gives for a string such as one space, the
    index has no SSH command and no key file, and the fetch of its refresh
    runs without an override. *)
Lemma ssh_override_follows_key_counterexample :
  ∃ self w1 w' evs,
    _github_private_key (module_globals world_with_empty_key) = Some [] ∧
    Index__init__ (T:=sim_toolchain fetch_ok) (L:=sim_local "BaNaNaS")
      world_with_empty_key = Return self w1 ∧
    _ssh_command self = None ∧ _github_private_key_file self = None ∧
    tempfiles w1 = ∅ ∧
    outcome_world (_fetch_latest (T:=sim_toolchain fetch_ok)
                     self (Some "main") w1) = Some w' ∧
    trace w' =
      trace w1 ++
      EvFetch "https://github.com/OpenTTD/BaNaNaS" None :: evs.
Proof.
  eexists _, _, _, _. split; [reflexivity|].
  split; [vm_compute; reflexivity|].
  split; [reflexivity|]. split; [reflexivity|]. split; [reflexivity|].
  split; [vm_compute; reflexivity|]. vm_compute. reflexivity.
Qed.

(** C8. A pass either removes at least one directory and returns [True], or
    removes nothing, returns [False] and leaves the folder as it was. The
    loop of the refresh, and the same loop with any higher bound on its
    passes, returns: after [k] passes that each removed something, [k] at
    most the number of directories, comes the one pass that removes
    nothing. So the refresh never stays in its loop. *)
Theorem pruning_loop_terminates {T : Toolchain} self folder w extra :
  (∀ d, let r := prune_pass folder d in
     (removed r = true ∧ rmdirs r ≠ [] ∧
      count_dirs_disk (left_over r) < count_dirs_disk d) ∨
     (removed r = false ∧ rmdirs r = [] ∧ left_over r = d)) ∧
  (∀ w0, _remove_empty_folders self folder w0 =
     Return (removed (prune_pass folder (folder_disk w0)))
       (log_all (EvRmdir <$> rmdirs (prune_pass folder (folder_disk w0)))
          (set_disk (left_over (prune_pass folder (folder_disk w0))) w0))) ∧
  ∃ k w',
    while_pass (S (count_dirs_disk (folder_disk w)) + extra)
      (_remove_empty_folders self folder) w = Return tt w' ∧
    k ≤ count_dirs_disk (folder_disk w) ∧
    folder_disk w' = after_passes k folder (folder_disk w) ∧
    (∀ i, i < k →
       removed (prune_pass folder (after_passes i folder (folder_disk w)))
         = true) ∧
    removed (prune_pass folder (after_passes k folder (folder_disk w)))
      = false ∧
    ∀ branch, _fetch_latest self branch w ≠ Unfinished.
Proof.
  split_and!.
  - apply prune_pass_cases.
  - done.
  - pose proof (fetch_latest_ends self) as Hends.
    destruct (while_pass_prune self folder
                (S (count_dirs_disk (folder_disk w)) + extra) w)
      as (k & w' & Hrun & Hk & Hd & Hbefore & Hlast & _); [lia|].
    by exists k, w'.
Qed.

(** C9. [reload] runs the refresh with the branch of the module state. If
    the refresh raises, [reload] raises the same exception in the same
    world, and the base class is not asked. If the refresh returns,
    [reload] is the [reload] of the base class in the refreshed world: it
    returns what that returns and raises what that raises. The refresh
    itself always ends. *)
Theorem reload_refreshes_then_delegates {T : Toolchain}
    {application result : Type} {L : LocalIndex application result}
    self (app : application) w :
  match _fetch_latest self (_github_branch (module_globals w)) w with
  | Return _ w1 => reload self app w = local_reload app (log EvBaseReload w1)
  | Raise e w1 => reload self app w = Raise e w1
  | Unfinished => False
  end.
Proof. apply reload_run. Qed.

(** C10. The branch of a refresh is the one the module state holds when
    [reload] is called: after [click_index_github] has stored a branch,
    [reload] of an index, also of one built before that, refreshes with the
    stored branch. When the repository has its origin and the fetch, the
    first or the retry, brings that branch, the refresh attempts the
    checkout of that branch right after its fetches, and when the checkout
    goes through the repository is on that branch, at the tree origin has
    for it. No other branch is checked out, and a [reload] that returns has
    fetched and has checked out the stored branch. *)
Theorem reload_reads_branch_at_call {T : Toolchain}
    {application result : Type} {L : LocalIndex application result}
    self (app : application) url branch key w1 w2 :
  click_index_github url branch key w1 = Return tt w2 →
  let n := fetch_count w2 in
  let ssh := _ssh_command self in
  _github_branch (module_globals w2) = branch ∧
  match _fetch_latest self branch w2 with
  | Return _ w3 => reload self app w2 = local_reload app (log EvBaseReload w3)
  | Raise e w3 => reload self app w2 = Raise e w3
  | Unfinished => False
  end ∧
  (∃ w3 evs,
     outcome_world (_fetch_latest self branch w2) = Some w3 ∧
     trace w3 = trace w2 ++ evs ∧
     ∀ b, EvCheckout b ∈ evs → branch = Some b) ∧
  (∀ r u refs b c,
     repository w2 = Some r → remotes r !! "origin" = Some u →
     git_fetch n u ssh = inr refs ∨
     (git_fetch n u ssh = inl BadName ∧ git_fetch (S n) u ssh = inr refs) →
     branch = Some b → refs !! b = Some c →
     ∃ w3 evs1 evs2,
       outcome_world (_fetch_latest self branch w2) = Some w3 ∧
       trace w3 = trace w2 ++ evs1 ++ EvCheckout b :: evs2 ∧
       (evs1 = [EvFetch u ssh] ∨ evs1 = [EvFetch u ssh; EvFetch u ssh]) ∧
       (∀ d1, git_checkout c (fetched refs r) (folder_disk w2) = inr d1 →
          ∃ r', repository w3 = Some r' ∧ origin_refs r' = refs ∧
                HEAD r' = Some b ∧ heads r' !! b = Some c ∧ index r' = c)) ∧
  (∀ res w4, reload self app w2 = Return res w4 →
     ∃ w3 b r' evs,
       _fetch_latest self branch w2 = Return tt w3 ∧ branch = Some b ∧
       trace w3 = trace w2 ++ evs ∧
       (∃ u, EvFetch u ssh ∈ evs) ∧ EvCheckout b ∈ evs ∧
       repository w3 = Some r' ∧ HEAD r' = Some b ∧
       origin_refs r' !! b = Some (index r')).
Proof.
  intros Hclick. cbv zeta.
  assert (_github_branch (module_globals w2) = branch) as Hb.
  { unfold click_index_github in Hclick. run.
    destruct key as [key|]; [|by simplify_eq/=].
    case_bool_decide; [|by simplify_eq/=].
    destruct (b64decode key); by simplify_eq/=. }
  split; [done|]. split_and!.
  - rewrite <-Hb. apply reload_run.
  - destruct (fetch_latest_calls self branch w2)
      as (w3 & Hw3 & _ & _ & evs & Ht & Hall).
    exists w3, evs. split_and!; [done..|].
    intros b Hin. rewrite Forall_forall in Hall. by apply Hall in Hin.
  - intros r u refs b c Hr Hu Hfetch -> Hc.
    destruct (fetch_latest_checks_out self b w2 r u refs c Hr Hu Hfetch Hc)
      as (w3 & evs1 & evs2 & Hw3 & Ht & Hevs1 & _ & Hco).
    exists w3, evs1, evs2. split_and!; [done..|].
    intros d1 Hd1. rewrite (Hco d1 Hd1). eexists. split; [done|].
    cbn. by rewrite lookup_insert_eq.
  - intros res w4 Hreload.
    pose proof (reload_run self app w2) as Hrun. rewrite Hb in Hrun.
    destruct (_fetch_latest self branch w2) as [[] w3|e w3|] eqn:Hrefresh;
      [|congruence|done].
    destruct (fetch_latest_return_origin self branch w2 w3 Hrefresh)
      as (r & u & refs & b & c & Hr & Hu & -> & Hfetch & Hc & Hr3).
    destruct (fetch_latest_checks_out self b w2 r u refs c Hr Hu Hfetch Hc)
      as (w3' & evs1 & evs2 & Hw3 & Ht & Hevs1 & _ & _).
    rewrite Hrefresh in Hw3. injection Hw3 as <-.
    exists w3, b, (checked_out b c (fetched refs r)),
           (evs1 ++ EvCheckout b :: evs2).
    split_and!; [done|done|done| | |done|done|].
    + exists u. apply elem_of_app. left.
      destruct Hevs1 as [-> | ->]; by left.
    + apply elem_of_app. right. by left.
    + cbn. done.
Qed.

(** C10, at work: an index is built while the branch is [main]; the branch
    is then set to [staging]; the next refresh fetches, checks out
    [staging] and leaves the repository on it, at the tree origin has for
    it. *)
Lemma reload_reads_branch_at_call_witness :
  ∃ self w1 w2 w3 evs1 evs2 r',
    Index__init__ (T:=sim_toolchain fetch_ok) (L:=sim_local "BaNaNaS")
      world_with_plain_folder = Return self w1 ∧
    click_index_github (T:=sim_toolchain fetch_ok)
      (Some "https://github.com/OpenTTD/BaNaNaS") (Some "staging") None w1
      = Return tt w2 ∧
    outcome_world (_fetch_latest (T:=sim_toolchain fetch_ok) self
                     (Some "staging") w2) = Some w3 ∧
    trace w3 = trace w2 ++ evs1 ++ EvCheckout "staging" :: evs2 ∧
    evs1 = [EvFetch "https://github.com/OpenTTD/BaNaNaS" None] ∧
    repository w3 = Some r' ∧ HEAD r' = Some "staging" ∧
    index r' = staging_tree.
Proof.
  eexists (plain_index "BaNaNaS"), _, _.
  destruct (reload_reads_branch_at_call (T:=sim_toolchain fetch_ok)
              (L:=sim_local "BaNaNaS") (plain_index "BaNaNaS") tt
              (Some "https://github.com/OpenTTD/BaNaNaS") (Some "staging") None
              (World (configured "main" None)
                 (Some [("junk.txt", File "left over");
                        (".git", Dir git_skeleton)])
                 (Some (with_origin "https://github.com/OpenTTD/BaNaNaS"
                          fresh_repo))
                 None ∅ 0
                 [EvRepoOpen "BaNaNaS"; EvRepoInit "BaNaNaS";
                  EvCreateRemote "origin" "https://github.com/OpenTTD/BaNaNaS"])
              (World (configured "staging" None)
                 (Some [("junk.txt", File "left over");
                        (".git", Dir git_skeleton)])
                 (Some (with_origin "https://github.com/OpenTTD/BaNaNaS"
                          fresh_repo))
                 None ∅ 0
                 [EvRepoOpen "BaNaNaS"; EvRepoInit "BaNaNaS";
                  EvCreateRemote "origin" "https://github.com/OpenTTD/BaNaNaS"]))
    as (_ & _ & _ & Hcheckout & _).
  { vm_compute. reflexivity. }
  edestruct (Hcheckout
               (with_origin "https://github.com/OpenTTD/BaNaNaS" fresh_repo)
               "https://github.com/OpenTTD/BaNaNaS" remote_refs "staging"
               staging_tree)
    as (w3 & evs1 & evs2 & Hw3 & Ht & Hevs1 & Hco);
    [reflexivity|reflexivity|left; reflexivity|reflexivity|reflexivity|].
  edestruct Hco as (r' & Hr' & _ & Hhead & _ & Hindex);
    [vm_compute; reflexivity|].
  exists w3, evs1, evs2, r'. split; [vm_compute; reflexivity|].
  split; [vm_compute; reflexivity|].
  split_and!; [exact Hw3|exact Ht| |exact Hr'|exact Hhead|exact Hindex].
  destruct Hevs1 as [->|Htwo]; [reflexivity|].
  exfalso. rewrite Htwo in Ht. revert Hw3 Ht. vm_compute.
  intros [= <-]. discriminate.
Defined.

(** * Further properties of the module *)

(** ** Pruning *)

Lemma file_in_prune_pass_disk folder d p data :
  file_in p data (disk_entries (left_over (prune_pass folder d))) ↔
  file_in p data (disk_entries d).
Proof.
  destruct d as [es|]; [|done]. unfold prune_pass.
  case_bool_decide; [done|].
  rewrite walk_remove_Dir. cbv zeta.
  destruct (startswith folder ".git").
  { cbn [left_over disk_entries default]. apply file_in_walk_below. }
  destruct (negb (truthy (dirs es)) && negb (truthy (nondirs es))) eqn:Hscan.
  { by apply scan_empty in Hscan as ->. }
  cbn [left_over disk_entries default]. apply file_in_walk_below.
Qed.

(** X1. Pruning removes directories only: after one call of
    [_remove_empty_folders], and after the loop of the refresh whatever the
    number of passes, every file of the folder, inside [.git] or outside,
    is where it was with the content it had, and no file has appeared. *)
Theorem pruning_keeps_files self folder :
  (∀ w w' again p data,
     _remove_empty_folders self folder w = Return again w' →
     file_in p data (disk_entries (folder_disk w')) ↔
     file_in p data (disk_entries (folder_disk w))) ∧
  (∀ fuel w w' p data,
     while_pass fuel (_remove_empty_folders self folder) w = Return tt w' →
     file_in p data (disk_entries (folder_disk w')) ↔
     file_in p data (disk_entries (folder_disk w))).
Proof.
  assert (∀ w w' again p data,
    _remove_empty_folders self folder w = Return again w' →
    file_in p data (disk_entries (folder_disk w')) ↔
    file_in p data (disk_entries (folder_disk w))) as Hone.
  { intros w w' again p data [= _ <-]. apply file_in_prune_pass_disk. }
  split; [done|].
  induction fuel as [|fuel IH]; intros w w' p data; [done|].
  cbn [while_pass]. unfold bind at 1.
  destruct (_remove_empty_folders self folder w) as [again w1|?|] eqn:H1;
    [|done..].
  rewrite <-(Hone w w1 again p data H1).
  destruct again; [by apply IH|]. by intros [= <-].
Qed.

(** X1, at work: a pass over the mirror after a checkout keeps the pack
    file inside [.git]. *)
Lemma pruning_keeps_files_witness :
  ∃ again w',
    _remove_empty_folders (plain_index "BaNaNaS") "BaNaNaS"
      (ready_world mirror_after_checkout) = Return again w' ∧
    file_in [".git"; "objects"; "pack"; "pack-1.pack"] "PACK"
      (disk_entries (folder_disk w')).
Proof.
  eexists _, _. split; [vm_compute; reflexivity|].
  apply (proj1 (pruning_keeps_files (plain_index "BaNaNaS") "BaNaNaS")
           (ready_world mirror_after_checkout) _ true); [vm_compute; reflexivity|].
  cbn. eexists. split; [by left|]. eexists. split; [right; right; by left|].
  eexists. split; [right; by left|]. by left.
Defined.





(** A pass leaves names as they are. *)
Lemma walk_remove_plain_names n : ∀ root,
  plain_names n = true →
  match left_over (walk_remove root n) with
  | Some n' => plain_names n' = true
  | None => True
  end.
Proof.
  induction n as [d|es IH] using node_ind; intros root Hnames; [done|].
  assert (plain_names (Dir (left_over (walk_below root es))) = true) as Hbelow.
  { apply plain_names_Dir in Hnames. apply plain_names_Dir. revert Hnames.
    induction IH as [|[name c] l Hc _ IHl]; intros Hnames; [done|].
    apply Forall_cons in Hnames as [[Hname Hcn] Hnames].
    cbn [walk_below left_over]. cbn [snd] in Hc.
    specialize (Hc (os_path_join root name) Hcn).
    destruct (left_over (walk_remove (os_path_join root name) c));
      [|by apply IHl].
    apply Forall_cons. split; [done|by apply IHl]. }
  rewrite walk_remove_Dir. cbv zeta.
  destruct (startswith root ".git"); [done|].
  by destruct (negb (truthy (dirs es)) && negb (truthy (nondirs es))).
Qed.

Lemma prune_pass_plain_names folder d :
  plain_names_disk d = true →
  plain_names_disk (left_over (prune_pass folder d)) = true.
Proof.
  destruct d as [es|]; [|done]. intros Hnames. unfold prune_pass.
  case_bool_decide; [done|].
  pose proof (walk_remove_plain_names (Dir es) folder Hnames) as Hp.
  cbn [left_over].
  by destruct (left_over (walk_remove folder (Dir es))) as [[|es']|].
Qed.

Lemma after_passes_plain_names k folder : ∀ d,
  plain_names_disk d = true →
  plain_names_disk (after_passes k folder d) = true.
Proof.
  induction k as [|k IH]; intros d Hd; [done|]. simpl.
  by apply IH, prune_pass_plain_names.
Qed.

(** A tree without files has a directory without entries. *)
Lemma no_files_empty_dir n : ∀ es,
  n = Dir es → (∀ p data, ¬ file_in p data es) → has_empty_dir n = true.
Proof.
  induction n as [d|es0 IH] using node_ind; intros es Heq Hnone; [done|].
  injection Heq as <-. destruct es0 as [|[name c] es]; [done|].
  rewrite has_empty_dir_Dir. cbn [has_empty_dir_in existsb snd].
  apply orb_true_iff. left.
  apply Forall_cons in IH as [IH _]. cbn [snd] in IH.
  destruct c as [d|sub].
  { destruct (Hnone [name] d). by left. }
  apply (IH sub); [done|]. intros p data Hin.
  destruct p as [|x p]; [done|].
  apply (Hnone (name :: x :: p) data). apply file_in_cons.
  exists sub. split; [by left|done].
Qed.

Lemma file_in_after_passes_disk k folder : ∀ d p data,
  file_in p data (disk_entries (after_passes k folder d)) ↔
  file_in p data (disk_entries d).
Proof.
  induction k as [|k IH]; intros d p data; [done|].
  simpl. by rewrite IH, file_in_prune_pass_disk.
Qed.

(** X3. Where the loop of the refresh ends, for a folder whose path is not
    empty and does not start with [.git]: either the folder itself is gone,
    or no directory in it, inside [.git] or outside, is without entries.
    A folder that holds no file at all is removed itself. *)
Theorem pruning_loop_end_state self w :
  _folder self ≠ "" → startswith (_folder self) ".git" = false →
  plain_names_disk (folder_disk w) = true →
  ∃ w',
    while_pass (S (count_dirs_disk (folder_disk w)))
      (_remove_empty_folders self (_folder self)) w = Return tt w' ∧
    match folder_disk w' with
    | Some es' =>
        has_empty_dir (Dir es') = false ∧
        ∃ p data, file_in p data (disk_entries (folder_disk w))
    | None => True
    end.
Proof.
  intros Hfolder Hgit Hnames.
  destruct (while_pass_prune self (_folder self)
              (S (count_dirs_disk (folder_disk w))) w)
    as (k & w' & Hrun & _ & Hd & _ & Hlast & _); [lia|].
  exists w'. split; [done|].
  pose proof (after_passes_plain_names k (_folder self) _ Hnames) as Hn.
  rewrite <-Hd in Hn, Hlast.
  destruct (folder_disk w') as [es'|] eqn:Hd'; [|done].
  pose proof (prune_pass_nothing _ es' Hfolder Hgit Hn Hlast) as Hnone.
  split; [done|].
  destruct (files_in es') as [|[p data] fs] eqn:Hfiles.
  - rewrite (no_files_empty_dir (Dir es') es') in Hnone; [done..|].
    intros p data Hin.
    apply (proj2 (elem_of_files_in_file_in es' p data)) in Hin.
    rewrite Hfiles in Hin. by apply elem_of_nil in Hin.
  - exists p, data.
    apply (file_in_after_passes_disk k (_folder self)). rewrite <-Hd.
    apply (proj1 (elem_of_files_in_file_in es' p data)).
    rewrite Hfiles. by left.
Qed.

(** X3, at work: the mirror after a checkout, pruned from [BaNaNaS]. *)
Lemma pruning_loop_end_state_witness :
  ∃ w',
    while_pass
      (S (count_dirs_disk (folder_disk (ready_world mirror_after_checkout))))
      (_remove_empty_folders (plain_index "BaNaNaS") "BaNaNaS")
      (ready_world mirror_after_checkout) = Return tt w' ∧
    match folder_disk w' with
    | Some es' =>
        has_empty_dir (Dir es') = false ∧
        ∃ p data,
          file_in p data
            (disk_entries (folder_disk (ready_world mirror_after_checkout)))
    | None => True
    end.
Proof.
  apply (pruning_loop_end_state (plain_index "BaNaNaS")
           (ready_world mirror_after_checkout)); by vm_compute.
Defined.

(** ** The refresh *)

Lemma clean_stage_configuration {T : Toolchain} self branch w w' :
  outcome_world (clean_stage self branch w) = Some w' →
  tempfiles w' = tempfiles w ∧
  remotes <$> repository w' = remotes <$> repository w.
Proof.
  intros Hw'. pose proof (clean_stage_spec self branch w) as Hs.
  destruct (clean_stage self branch w) as [[] w1|e w1|] eqn:Hc;
    simplify_eq/=.
  - destruct Hs as [[_ _ _ Ht _] (r & b & c & d1 & k & Hr & _ & _ & _ & Hr' & _)].
    split; [done|]. by rewrite Hr, Hr'.
  - destruct Hs as [_ _ _ Ht _]. split; [done|].
    apply clean_stage_raise in Hc
      as [[_ ->]|(r & b & c & d1 & Hr & _ & _ & _ & _ & Hr')]; [done|].
    by rewrite Hr, Hr'.
Qed.

(** X4. What a refresh leaves alone, whether it returns or raises: the
    environment of git commands is, after the refresh, what it was before
    (the SSH command is in place for the fetch only), and the module state,
    the temporary files and the remotes of the repository with their URLs
    are unchanged. *)
Theorem refresh_leaves_configuration {T : Toolchain} self branch w :
  ∃ w', outcome_world (_fetch_latest self branch w) = Some w' ∧
    git_environment w' = git_environment w ∧
    module_globals w' = module_globals w ∧
    tempfiles w' = tempfiles w ∧
    remotes <$> repository w' = remotes <$> repository w.
Proof.
  destruct (fetch_latest_calls self branch w) as (w' & Hw' & He & Hg & _).
  exists w'. split_and!; [done..| |].
  - destruct (repository w) as [r|] eqn:Hr.
    2:{ destruct (fetch_latest_no_origin self branch w) as [e He'];
          [congruence|]. rewrite He' in Hw'. by simplify_eq/=. }
    destruct (remotes r !! "origin") as [url|] eqn:Hu.
    2:{ destruct (fetch_latest_no_origin self branch w) as [e He'];
          [congruence|]. rewrite He' in Hw'. by simplify_eq/=. }
    rewrite (fetch_latest_eq self branch w r url Hr Hu) in Hw'.
    rewrite (fetch_stage_eq self "origin" w r url Hr Hu) in Hw'.
    cbv zeta in Hw'.
    destruct (git_fetch (fetch_count w) url (_ssh_command self)) as [e|refs].
    + destruct (is_BadName e); [|by simplify_eq/=].
      destruct (git_fetch (S (fetch_count w)) url (_ssh_command self))
        as [e2|refs]; [by simplify_eq/=|].
      by apply clean_stage_configuration in Hw' as [-> _].
    + by apply clean_stage_configuration in Hw' as [-> _].
  - destruct (repository w) as [r|] eqn:Hr.
    2:{ destruct (fetch_latest_no_origin self branch w) as [e He'];
          [congruence|]. rewrite He' in Hw'. simplify_eq/=. by rewrite Hr. }
    destruct (remotes r !! "origin") as [url|] eqn:Hu.
    2:{ destruct (fetch_latest_no_origin self branch w) as [e He'];
          [congruence|]. rewrite He' in Hw'. simplify_eq/=. by rewrite Hr. }
    rewrite (fetch_latest_eq self branch w r url Hr Hu) in Hw'.
    rewrite (fetch_stage_eq self "origin" w r url Hr Hu) in Hw'.
    cbv zeta in Hw'.
    destruct (git_fetch (fetch_count w) url (_ssh_command self)) as [e|refs].
    + destruct (is_BadName e); [|simplify_eq/=; by rewrite Hr].
      destruct (git_fetch (S (fetch_count w)) url (_ssh_command self))
        as [e2|refs]; [simplify_eq/=; by rewrite Hr|].
      by apply clean_stage_configuration in Hw' as [_ ->].
    + by apply clean_stage_configuration in Hw' as [_ ->].
Qed.

(** X5. A refresh whose fetch succeeds but does not bring the branch it was
    asked for raises [IndexError] from [origin.refs[branch]]: by then the
    references of origin are the fetched ones, while the fetch is the only
    call that was made: nothing was checked out, unlinked or removed, and
    the working tree is as it was. *)
Theorem refresh_of_unknown_branch {T : Toolchain} self b w r url refs :
  repository w = Some r → remotes r !! "origin" = Some url →
  git_fetch (fetch_count w) url (_ssh_command self) = inr refs →
  refs !! b = None →
  ∃ w',
    _fetch_latest self (Some b) w = Raise (OtherError "IndexError") w' ∧
    working_tree (folder_disk w') = working_tree (folder_disk w) ∧
    repository w' = Some (fetched refs r) ∧
    git_environment w' = git_environment w ∧
    trace w' = trace w ++ [EvFetch url (_ssh_command self)].
Proof.
  intros Hr Hu Hfetch Hrefs.
  rewrite (fetch_latest_eq self (Some b) w r url Hr Hu).
  rewrite (fetch_stage_eq self "origin" w r url Hr Hu). cbv zeta.
  rewrite Hfetch. unfold clean_stage, origin_refs_getitem, the_repo.
  run. cbn. rewrite Hrefs. by eexists.
Qed.

(** X5, at work: origin has [main] and [staging]; a refresh for [release]
    raises after its fetch and leaves the left-over file where it is. *)
Lemma refresh_of_unknown_branch_witness :
  ∃ w',
    _fetch_latest (T:=sim_toolchain fetch_ok) (plain_index "BaNaNaS")
      (Some "release") (ready_world mirror_folder)
    = Raise (OtherError "IndexError") w' ∧
    working_tree (folder_disk w') = working_tree (Some mirror_folder).
Proof.
  destruct (refresh_of_unknown_branch (T:=sim_toolchain fetch_ok)
              (plain_index "BaNaNaS") "release" (ready_world mirror_folder)
              (with_origin "https://github.com/OpenTTD/BaNaNaS" fresh_repo)
              "https://github.com/OpenTTD/BaNaNaS" remote_refs)
    as (w' & Hrun & Hd & _); [by vm_compute..|].
  exists w'. split; [done|]. by rewrite Hd.
Defined.

Lemma is_BadName_true e : is_BadName e = true → e = BadName.
Proof. by destruct e. Qed.

(** X6. What a refresh that returns has checked out. The references of
    origin are the ones its own fetch brought, the retry's when the first
    fetch met the garbage collector; the tree checked out is the one those
    references give for the branch; [HEAD] is the local branch of that name,
    made or moved to that tree, the index holds that tree, and the other
    local branches are where they were. *)
Theorem refresh_checks_out_fetched_tree {T : Toolchain}
    self branch w w' r url :
  repository w = Some r → remotes r !! "origin" = Some url →
  _fetch_latest self branch w = Return tt w' →
  let n := fetch_count w in
  let ssh := _ssh_command self in
  ∃ b refs c r',
    branch = Some b ∧
    (git_fetch n url ssh = inr refs ∨
     (git_fetch n url ssh = inl BadName ∧
      git_fetch (S n) url ssh = inr refs)) ∧
    refs !! b = Some c ∧
    repository w' = Some r' ∧
    origin_refs r' = refs ∧ HEAD r' = Some b ∧ heads r' !! b = Some c ∧
    index r' = c ∧
    (∀ b', b' ≠ b → heads r' !! b' = heads r !! b').
Proof.
  intros Hr Hu Hrun. cbv zeta.
  rewrite (fetch_latest_eq self branch w r url Hr Hu) in Hrun.
  rewrite (fetch_stage_eq self "origin" w r url Hr Hu) in Hrun.
  cbv zeta in Hrun.
  assert (∀ refs w1,
    repository w1 = Some (fetched refs r) →
    clean_stage self branch w1 = Return tt w' →
    ∃ b c r',
      branch = Some b ∧ refs !! b = Some c ∧ repository w' = Some r' ∧
      origin_refs r' = refs ∧ HEAD r' = Some b ∧ heads r' !! b = Some c ∧
      index r' = c ∧
      (∀ b', b' ≠ b → heads r' !! b' = heads r !! b')) as Hclean.
  { intros refs w1 Hr1 Hc.
    pose proof (clean_stage_spec self branch w1) as Hs. rewrite Hc in Hs.
    destruct Hs as (_ & r1 & b & c & d1 & k & Hr' & -> & Hrefs & _ & Hrw' & _).
    rewrite Hr1 in Hr'. injection Hr' as <-.
    exists b, c, (checked_out b c (fetched refs r)).
    split_and!; [done..| | |].
    - cbn. by rewrite lookup_insert_eq.
    - done.
    - intros b' Hb'. cbn. by rewrite lookup_insert_ne. }
  destruct (git_fetch (fetch_count w) url (_ssh_command self))
    as [e|refs] eqn:Hf1.
  - destruct (is_BadName e) eqn:He; [|done].
    apply is_BadName_true in He as ->.
    destruct (git_fetch (S (fetch_count w)) url (_ssh_command self))
      as [e2|refs] eqn:Hf2; [done|].
    edestruct (Hclean refs) as (b & c & r' & ? & ? & ? & ? & ? & ? & ? & ?);
      [|exact Hrun|]; [done|].
    exists b, refs, c, r'. split_and!; [done|by right|done..].
  - edestruct (Hclean refs) as (b & c & r' & ? & ? & ? & ? & ? & ? & ? & ?);
      [|exact Hrun|]; [done|].
    exists b, refs, c, r'. split_and!; [done|by left|done..].
Qed.

(** X6, at work: the refresh that meets the garbage collector once checks
    out [main] as the second fetch brought it. *)
Lemma refresh_checks_out_fetched_tree_witness :
  ∃ w',
    _fetch_latest (T:=sim_toolchain fetch_badname_once)
      (plain_index "BaNaNaS") (Some "main") (ready_world mirror_folder)
    = Return tt w' ∧
    ∃ r', repository w' = Some r' ∧ HEAD r' = Some "main" ∧
          index r' = main_tree.
Proof.
  eexists. split; [vm_compute; reflexivity|].
  edestruct (refresh_checks_out_fetched_tree
               (T:=sim_toolchain fetch_badname_once)
               (plain_index "BaNaNaS") (Some "main")
               (ready_world mirror_folder))
    as (b & refs & c & r' & Hb & Hf & Hc & Hr' & _ & Hh & _ & Hi & _);
    [reflexivity|reflexivity|vm_compute; reflexivity|].
  injection Hb as <-. exists r'. split_and!; [exact Hr'|exact Hh|].
  destruct Hf as [Hf|[_ Hf]]; [discriminate Hf|].
  injection Hf as <-. rewrite Hi. by injection Hc.
Defined.

Lemma local_call_no_fetch branch evs u env :
  Forall (local_call branch) evs → EvFetch u env ∉ evs.
Proof.
  intros Hall Hin. by apply (proj1 (Forall_forall _ _) Hall) in Hin.
Qed.

(** X7. Where a refresh fetches from. With a remote called origin in the
    repository, the first thing a refresh does is a fetch from the URL the
    repository holds for origin, and every fetch it makes goes there: the
    URL of the module state is not read. With no such remote the refresh
    raises at once and the world is as it was. *)
Theorem refresh_fetches_from_origin {T : Toolchain} self branch w :
  (∀ r url,
     repository w = Some r → remotes r !! "origin" = Some url →
     ∃ w' evs,
       outcome_world (_fetch_latest self branch w) = Some w' ∧
       trace w' = trace w ++ EvFetch url (_ssh_command self) :: evs ∧
       ∀ u env, EvFetch u env ∈ evs → u = url) ∧
  ((∀ r, repository w = Some r → remotes r !! "origin" = None) →
     ∃ e, _fetch_latest self branch w = Raise e w).
Proof.
  split; [|apply fetch_latest_no_origin].
  intros r url Hr Hu.
  rewrite (fetch_latest_eq self branch w r url Hr Hu).
  rewrite (fetch_stage_eq self "origin" w r url Hr Hu). cbv zeta.
  assert (∀ w1 evs1,
    trace w1 = trace w ++ EvFetch url (_ssh_command self) :: evs1 →
    (∀ u env, EvFetch u env ∈ evs1 → u = url) →
    ∃ w' evs,
      outcome_world (clean_stage self branch w1) = Some w' ∧
      trace w' = trace w ++ EvFetch url (_ssh_command self) :: evs ∧
      ∀ u env, EvFetch u env ∈ evs → u = url) as Hclean.
  { intros w1 evs1 Ht1 Hall1.
    pose proof (clean_stage_spec self branch w1) as Hs.
    assert (∀ w', only_calls (local_call branch) w1 w' →
      ∃ evs,
        trace w' = trace w ++ EvFetch url (_ssh_command self) :: evs ∧
        ∀ u env, EvFetch u env ∈ evs → u = url) as Hlocal.
    { intros w' [_ _ _ _ (evs & Ht & Hall)]. exists (evs1 ++ evs).
      rewrite Ht, Ht1, <-(assoc_L (++)). split; [done|].
      intros u env [Hin|Hin]%elem_of_app; [by eapply Hall1|].
      by apply (local_call_no_fetch _ _ _ _ Hall) in Hin. }
    destruct (clean_stage self branch w1) as [[] w'|e w'|]; [| |done].
    - destruct Hs as [Hs _]. destruct (Hlocal w' Hs) as (evs & ? & ?).
      by exists w', evs.
    - destruct (Hlocal w' Hs) as (evs & ? & ?). by exists w', evs. }
  destruct (git_fetch (fetch_count w) url (_ssh_command self)) as [e|refs].
  - destruct (is_BadName e).
    + destruct (git_fetch (S (fetch_count w)) url (_ssh_command self))
        as [e2|refs].
      * eexists _, [EvFetch url (_ssh_command self)].
        split_and!; [done|cbn; by rewrite <-(assoc_L (++))|].
        by intros u env [= -> _]%list_elem_of_singleton.
      * apply (Hclean _ [EvFetch url (_ssh_command self)]).
        -- cbn. by rewrite <-(assoc_L (++)).
        -- by intros u env [= -> _]%list_elem_of_singleton.
    + eexists _, []. split_and!; [done..|]. by intros u env ?%elem_of_nil.
  - apply (Hclean _ []); [done|]. by intros u env ?%elem_of_nil.
Qed.

(** X7, at work: the refresh of the mirror begins with a fetch from the
    URL of origin. *)
Lemma refresh_fetches_from_origin_witness :
  ∃ w' evs,
    outcome_world
      (_fetch_latest (T:=sim_toolchain fetch_ok) (plain_index "BaNaNaS")
         (Some "main") (ready_world mirror_folder)) = Some w' ∧
    trace w' =
      trace (ready_world mirror_folder) ++
      EvFetch "https://github.com/OpenTTD/BaNaNaS"
        (_ssh_command (plain_index "BaNaNaS")) :: evs ∧
    ∀ u env, EvFetch u env ∈ evs → u = "https://github.com/OpenTTD/BaNaNaS".
Proof.
  apply (proj1 (refresh_fetches_from_origin (T:=sim_toolchain fetch_ok)
                  (plain_index "BaNaNaS") (Some "main")
                  (ready_world mirror_folder))
           (with_origin "https://github.com/OpenTTD/BaNaNaS" fresh_repo));
    reflexivity.
Defined.

Lemma disk_entries_unlinked qs d p data :
  file_in p data
    (disk_entries ((λ es, foldl (λ acc q, remove_file q acc) es qs) <$> d)) ↔
  file_in p data (disk_entries d) ∧ p ∉ qs.
Proof.
  destruct d as [es|]; [apply file_in_unlink_all|].
  cbn. split; [by intros []%file_in_nil|by intros [[]%file_in_nil _]].
Qed.

(** X8. What a refresh that returns has deleted. The files of the folder,
    inside [.git] and outside, are the files the checkout left without
    those that [untracked_files] listed: each listed file is gone, no other
    file is gone or changed, and the pruning that followed took no file. *)
Theorem refresh_unlinks_the_listed_files {T : Toolchain} self branch w w' :
  _fetch_latest self branch w = Return tt w' →
  ∃ r refs b c d1,
    repository w = Some r ∧ branch = Some b ∧ refs !! b = Some c ∧
    git_checkout c (fetched refs r) (folder_disk w) = inr d1 ∧
    ∀ p data,
      file_in p data (disk_entries (folder_disk w')) ↔
      file_in p data (disk_entries d1) ∧ p ∉ git_untracked c d1.
Proof.
  intros (r & refs & b & c & d1 & k & Hr & -> & Hc & Hco & _ & Hd & _)
    %fetch_latest_return.
  exists r, refs, b, c, d1. split_and!; [done..|]. intros p data.
  by rewrite Hd, file_in_after_passes_disk, disk_entries_unlinked.
Qed.

(** X8, at work: after the refresh of the mirror the left-over file is
    gone and the tracked file is there. *)
Lemma refresh_unlinks_the_listed_files_witness :
  ∃ w',
    _fetch_latest (T:=sim_toolchain fetch_ok) (plain_index "BaNaNaS")
      (Some "main") (ready_world mirror_folder) = Return tt w' ∧
    ∃ r refs b c d1,
      repository (ready_world mirror_folder) = Some r ∧
      Some "main" = Some b ∧ refs !! b = Some c ∧
      git_checkout (Toolchain:=sim_toolchain fetch_ok) c (fetched refs r)
        (folder_disk (ready_world mirror_folder)) = inr d1 ∧
      ∀ p data,
        file_in p data (disk_entries (folder_disk w')) ↔
        file_in p data (disk_entries d1) ∧
        p ∉ git_untracked (Toolchain:=sim_toolchain fetch_ok) c d1.
Proof.
  eexists. split; [vm_compute; reflexivity|].
  apply (refresh_unlinks_the_listed_files (T:=sim_toolchain fetch_ok)
           (plain_index "BaNaNaS") (Some "main") (ready_world mirror_folder)).
  vm_compute; reflexivity.
Defined.

(** X9. With a toolchain that keeps its contract, a refresh that returns
    has made the working tree a mirror of the branch at origin: the index
    is the tree origin has for the branch, every file of that tree is in
    the working tree with its content, and every file of the working tree
    is at a path of that tree. For a folder whose path is not empty and
    does not start with [.git], the working tree has no directory without
    entries either. *)
Theorem refresh_mirrors_origin {T : Toolchain} (laws : ToolchainLaws T)
    self branch w w' :
  _fetch_latest self branch w = Return tt w' →
  ∃ r' b c,
    repository w' = Some r' ∧ branch = Some b ∧
    origin_refs r' !! b = Some c ∧ index r' = c ∧
    (∀ p data, file_in p data c →
               file_in p data (working_tree (folder_disk w'))) ∧
    (∀ p data, file_in p data (working_tree (folder_disk w')) →
               ∃ data', file_in p data' c) ∧
    (_folder self ≠ "" → startswith (_folder self) ".git" = false →
     plain_names_disk (folder_disk w') = true →
     has_empty_dir_in (working_tree (folder_disk w')) = false).
Proof.
  intros Hrun.
  destruct (fetch_latest_tracked_only laws self branch w w' Hrun)
    as (r' & b & Hr' & -> & Hrefs & Hconf & Htracked & _).
  exists r', b, (index r'). split_and!; [done..|].
  intros Hfolder Hgit Hnames.
  destruct (folder_disk w') as [es|] eqn:Hd; [|done].
  rewrite <-Hd.
  by apply (refresh_clean_in_plain_folder laws self (Some b) w w' es).
Qed.

(** X9, at work: the mirror with a left-over file and an empty directory,
    refreshed under the simulated toolchain. *)
Lemma refresh_mirrors_origin_witness :
  ∃ w',
    _fetch_latest (T:=sim_toolchain fetch_ok) (plain_index "BaNaNaS")
      (Some "main") (ready_world mirror_folder) = Return tt w' ∧
    ∃ r' b c,
      repository w' = Some r' ∧ Some "main" = Some b ∧
      origin_refs r' !! b = Some c ∧ index r' = c ∧
      (∀ p data, file_in p data c →
                 file_in p data (working_tree (folder_disk w'))) ∧
      (∀ p data, file_in p data (working_tree (folder_disk w')) →
                 ∃ data', file_in p data' c) ∧
      (_folder (plain_index "BaNaNaS") ≠ "" →
       startswith (_folder (plain_index "BaNaNaS")) ".git" = false →
       plain_names_disk (folder_disk w') = true →
       has_empty_dir_in (working_tree (folder_disk w')) = false).
Proof.
  eexists. split; [vm_compute; reflexivity|].
  apply (refresh_mirrors_origin (sim_laws fetch_ok) (plain_index "BaNaNaS")
           (Some "main") (ready_world mirror_folder)).
  vm_compute; reflexivity.
Defined.

Lemma file_in_has_file p : ∀ data es,
  file_in p data es → has_file p es = true.
Proof.
  induction p as [|name p IH]; intros data es; [done|].
  destruct p as [|x p].
  - cbn. intros Hin. apply existsb_exists. exists (name, File data).
    split; [by apply list_elem_of_In|].
    unfold is_file_named. cbn. by rewrite bool_decide_eq_true_2.
  - intros (sub & Hin & Hsub)%file_in_cons.
    cbn [has_file]. apply existsb_exists. exists (name, Dir sub).
    split; [by apply list_elem_of_In|]. cbn [fst snd].
    rewrite bool_decide_eq_true_2 by done. by apply (IH data).
Qed.

(** Unlinking files that are all there, each listed once, goes through. *)
Lemma for_each_unlink_returns folder ps : ∀ w,
  folder ≠ "" → NoDup ps →
  (∀ p, p ∈ ps → ∃ data, file_in p data (disk_entries (folder_disk w))) →
  ∃ w', for_each ps (os_unlink folder) w = Return tt w'.
Proof.
  induction ps as [|p ps IH]; intros w Hfolder Hnodup Hall; [by eexists|].
  apply NoDup_cons in Hnodup as [Hp Hnodup].
  destruct (Hall p) as [data Hin]; [by left|].
  destruct (folder_disk w) as [es|] eqn:Hd; [|by apply file_in_nil in Hin].
  cbn [for_each]. unfold bind at 1. unfold os_unlink at 1. rewrite Hd.
  rewrite bool_decide_eq_false_2 by done.
  rewrite (file_in_has_file p data es Hin).
  apply IH; [done..|]. intros q Hq. destruct (Hall q) as [dq Hdq]; [by right|].
  exists dq. cbn. apply file_in_remove_file. split; [done|].
  by intros ->.
Qed.

(** X10. With a toolchain that keeps its contract, a refresh goes through
    whenever git does its part: if the repository has its origin, the fetch
    succeeds and brings the branch, the checkout succeeds, and
    [untracked_files] lists no path twice, then for a folder with a
    non-empty path every [os.unlink] finds its file, the pruning ends, and
    the refresh returns. *)
Theorem refresh_returns {T : Toolchain} (laws : ToolchainLaws T)
    self b w r url refs c d1 :
  repository w = Some r → remotes r !! "origin" = Some url →
  git_fetch (fetch_count w) url (_ssh_command self) = inr refs →
  refs !! b = Some c →
  git_checkout c (fetched refs r) (folder_disk w) = inr d1 →
  NoDup (git_untracked c d1) →
  _folder self ≠ "" →
  ∃ w', _fetch_latest self (Some b) w = Return tt w'.
Proof.
  intros Hr Hu Hfetch Hrefs Hco Hnodup Hfolder.
  rewrite (fetch_latest_eq self (Some b) w r url Hr Hu).
  rewrite (fetch_stage_eq self "origin" w r url Hr Hu). cbv zeta.
  rewrite Hfetch.
  rewrite (clean_stage_eq self b _ (fetched refs r) c d1); [|done..].
  unfold bind at 1.
  edestruct (for_each_unlink_returns (_folder self) (git_untracked c d1))
    as [w2 ->]; [done..| |].
  { intros p [[data Hin] _]%(untracked_sound laws). exists data. cbn.
    destruct d1 as [es|]; [|done].
    by apply file_in_working_tree in Hin as [Hin _]. }
  unfold bind, get_world.
  destruct (while_pass_prune self (_folder self)
              (S (count_dirs_disk (folder_disk w2))) w2)
    as (k & w' & -> & _); [lia|]. by exists w'.
Qed.

(** X10, at work: the refresh of the mirror under the simulated
    toolchain. *)
Lemma refresh_returns_witness :
  ∃ w',
    _fetch_latest (T:=sim_toolchain fetch_ok) (plain_index "BaNaNaS")
      (Some "main") (ready_world mirror_folder) = Return tt w'.
Proof.
  eapply (refresh_returns (sim_laws fetch_ok) (plain_index "BaNaNaS") "main"
            (ready_world mirror_folder)
            (with_origin "https://github.com/OpenTTD/BaNaNaS" fresh_repo)
            "https://github.com/OpenTTD/BaNaNaS" remote_refs main_tree);
    [reflexivity|reflexivity|reflexivity|reflexivity|vm_compute; reflexivity
    | |done].
  apply (bool_decide_unpack _). vm_compute. exact I.
Defined.

(** ** The constructor and the configuration *)

Lemma with_origin_id url r :
  remotes r !! "origin" = Some url → with_origin url r = r.
Proof.
  intros Hu. destruct r as [rem refs hs hd idx]. unfold with_origin. cbn in *.
  by rewrite insert_id.
Qed.

(** X11. The constructor over a clone that is already in place. When the
    folder holds a repository whose origin has the configured URL, the
    constructor opens it and returns: it does not run [git init], it
    creates no remote and sets no URL, and the folder and the repository
    are as they were. *)
Theorem constructor_keeps_existing_clone {T : Toolchain}
    {application result : Type} {L : LocalIndex application result}
    w es r url :
  _github_url (module_globals w) = Some url →
  folder_disk w = Some es → repository w = Some r →
  remotes r !! "origin" = Some url →
  ∃ self w',
    Index__init__ w = Return self w' ∧
    _folder self = local_folder ∧
    folder_disk w' = folder_disk w ∧ repository w' = repository w ∧
    trace w' = trace w ++
      key_events (_github_private_key (module_globals w))
                 (tempfile_name (tempfiles w)) ++
      [EvRepoOpen local_folder].
Proof.
  intros Hurl Hd Hr Hu.
  pose proof (init_spec w url Hurl) as Hspec. cbv zeta in Hspec.
  unfold opened, open_events, origin_events in Hspec.
  rewrite Hd, Hr, Hu, bool_decide_eq_true_2 in Hspec by done.
  destruct Hspec as (w' & Hrun & Hd' & Hr' & _ & _ & _ & Ht).
  eexists _, w'. split_and!; [exact Hrun|done|congruence| |].
  - by rewrite Hr', Hr, with_origin_id.
  - by rewrite Ht, (right_id_L [] (++)).
Qed.

(** X11, at work: the constructor over the mirror with its origin. *)
Lemma constructor_keeps_existing_clone_witness :
  ∃ self w',
    Index__init__ (T:=sim_toolchain fetch_ok) (L:=sim_local "BaNaNaS")
      (ready_world mirror_folder) = Return self w' ∧
    _folder self = "BaNaNaS" ∧
    folder_disk w' = Some mirror_folder ∧
    repository w' = repository (ready_world mirror_folder) ∧
    trace w' = [EvRepoOpen "BaNaNaS"].
Proof.
  destruct (constructor_keeps_existing_clone (T:=sim_toolchain fetch_ok)
              (L:=sim_local "BaNaNaS") (ready_world mirror_folder)
              mirror_folder
              (with_origin "https://github.com/OpenTTD/BaNaNaS" fresh_repo)
              "https://github.com/OpenTTD/BaNaNaS")
    as (self & w' & Hrun & Hf & Hd & Hr & Ht); [reflexivity..|].
  by exists self, w'.
Defined.

(** X12. What [click_index_github] stores. The URL and the branch are
    stored in every case. Without a key, or with the empty string for it,
    the key of the module state stays what it was. A key that decodes is
    stored decoded. A key that does not decode makes the function raise
    what [b64decode] raises, with the URL and the branch stored already and
    the key as it was. Nothing but the module state changes. *)
Theorem click_index_github_stores {T : Toolchain} url branch key w :
  ∃ w',
    outcome_world (click_index_github url branch key w) = Some w' ∧
    _github_url (module_globals w') = url ∧
    _github_branch (module_globals w') = branch ∧
    (folder_disk w' = folder_disk w ∧ repository w' = repository w ∧
     git_environment w' = git_environment w ∧ tempfiles w' = tempfiles w ∧
     fetch_count w' = fetch_count w ∧ trace w' = trace w) ∧
    (key = None ∨ key = Some "" →
       click_index_github url branch key w = Return tt w' ∧
       _github_private_key (module_globals w') =
         _github_private_key (module_globals w)) ∧
    (∀ k decoded, key = Some k → k ≠ "" → b64decode k = inr decoded →
       click_index_github url branch key w = Return tt w' ∧
       _github_private_key (module_globals w') = Some decoded) ∧
    (∀ k e, key = Some k → k ≠ "" → b64decode k = inl e →
       click_index_github url branch key w = Raise e w' ∧
       _github_private_key (module_globals w') =
         _github_private_key (module_globals w)).
Proof.
  unfold click_index_github. run.
  destruct key as [k|]; [|eexists; split_and!; try done; by intros].
  case_bool_decide as Hk.
  2:{ eexists. split_and!; try done.
      - intros k' d' [= <-] Hne. by destruct Hne.
      - intros k' e' [= <-] Hne. by destruct Hne. }
  destruct (b64decode k) as [e|decoded] eqn:Hdec; cbn.
  - eexists. split_and!; try done.
    + by intros [|[= ->]].
    + intros k' d' [= <-] _. by rewrite Hdec.
    + intros k' e' [= <-] _. rewrite Hdec. by intros [= <-].
  - eexists. split_and!; try done.
    + by intros [|[= ->]].
    + intros k' d' [= <-] _. rewrite Hdec. by intros [= <-].
    + intros k' e' [= <-] _. by rewrite Hdec.
Qed.

(** X12, at work: a branch is stored without a key being passed. *)
Lemma click_index_github_stores_witness :
  ∃ w',
    click_index_github (T:=sim_toolchain fetch_ok)
      (Some "https://github.com/OpenTTD/BaNaNaS") (Some "staging") None
      world_with_key = Return tt w' ∧
    _github_branch (module_globals w') = Some "staging" ∧
    _github_private_key (module_globals w') = Some [x61; x62; x63].
Proof.
  destruct (click_index_github_stores (T:=sim_toolchain fetch_ok)
              (Some "https://github.com/OpenTTD/BaNaNaS") (Some "staging")
              None world_with_key)
    as (w' & _ & _ & Hb & _ & Hnone & _).
  destruct Hnone as [Hrun Hkey]; [by left|].
  exists w'. split_and!; [exact Hrun|exact Hb|exact Hkey].
Defined.

(** X13. The configuration reaches the constructor. An index built after
    [click_index_github] returned has its origin at the URL that was
    passed; when a key was passed that decodes to a non-empty key, the
    key file of the index holds the decoded key and its SSH command names
    that file. *)
Theorem configuration_reaches_constructor {T : Toolchain}
    {application result : Type} {L : LocalIndex application result}
    url branch key w0 w1 self w2 :
  click_index_github (Some url) branch key w0 = Return tt w1 →
  Index__init__ w1 = Return self w2 →
  let name := tempfile_name (tempfiles w1) in
  (∃ r', repository w2 = Some r' ∧ remotes r' !! "origin" = Some url) ∧
  (∀ k decoded,
     key = Some k → k ≠ "" → b64decode k = inr decoded →
     truthy decoded = true →
     _github_private_key_file self = Some name ∧
     _ssh_command self = Some ("ssh -i " +:+ name) ∧
     tempfiles w2 !! name = Some decoded).
Proof.
  intros Hclick Hinit. cbv zeta.
  assert (_github_url (module_globals w1) = Some url ∧
          ∀ k decoded, key = Some k → k ≠ "" → b64decode k = inr decoded →
            _github_private_key (module_globals w1) = Some decoded)
    as [Hurl Hkey].
  { revert Hclick. unfold click_index_github. run.
    destruct key as [k|]; [|by intros [= <-]].
    case_bool_decide as Hk.
    2:{ intros [= <-]. split; [done|]. intros k' d' [= <-] Hne.
        by destruct Hne. }
    destruct (b64decode k) as [e|decoded] eqn:Hdec; [done|].
    intros [= <-]. split; [done|]. intros k' d' [= <-] _. rewrite Hdec.
    by intros [= <-]. }
  pose proof (init_spec w1 url Hurl) as Hspec. cbv zeta in Hspec.
  destruct (opened w1) as [e|[es r]].
  { destruct Hspec as (? & ? & _). congruence. }
  destruct Hspec as (w' & Hrun & _ & Hr' & _ & _ & Hf & _).
  rewrite Hinit in Hrun. injection Hrun as -> <-. split.
  - eexists. split; [done|]. cbn. by rewrite lookup_insert_eq.
  - intros k decoded Hk Hne Hdec Htr. cbn.
    unfold ssh_command_for, key_file_for.
    rewrite (Hkey k decoded Hk Hne Hdec), Htr. split_and!; [done..|].
    by apply Hf; [apply (Hkey k)|].
Qed.

(** X13, at work: the URL and a key are configured, then the index is
    built over the folder that is no repository yet. *)
Lemma configuration_reaches_constructor_witness :
  ∃ w1 self w2,
    click_index_github (T:=sim_toolchain fetch_ok)
      (Some "git@github.com:OpenTTD/BaNaNaS") (Some "main") (Some "abc")
      world_with_plain_folder = Return tt w1 ∧
    Index__init__ (T:=sim_toolchain fetch_ok) (L:=sim_local "BaNaNaS") w1
      = Return self w2 ∧
    (∃ r', repository w2 = Some r' ∧
           remotes r' !! "origin" = Some "git@github.com:OpenTTD/BaNaNaS") ∧
    _ssh_command self = Some "ssh -i /tmp/tmp0" ∧
    tempfiles w2 !! "/tmp/tmp0" = Some [x61; x62; x63].
Proof.
  eexists _, _, _. split; [vm_compute; reflexivity|].
  split; [vm_compute; reflexivity|].
  edestruct (configuration_reaches_constructor (T:=sim_toolchain fetch_ok)
               (L:=sim_local "BaNaNaS") "git@github.com:OpenTTD/BaNaNaS"
               (Some "main") (Some "abc") world_with_plain_folder)
    as [Horigin Hkey]; [vm_compute; reflexivity..|].
  split; [exact Horigin|].
  destruct (Hkey "abc" [x61; x62; x63]) as (_ & Hssh & Hfile); [done..|].
  split; [exact Hssh|exact Hfile].
Defined.
